(** * model-operator: reconciler and admission mutator, embedded in Rocq

    A shallow embedding of the Go sources
      - api/v1alpha1/model_types.go
      - internal/resources/naming.go, pvc.go, job.go
      - package controller: the Model reconciler
      - package webhook: the Pod mutator
    Strings are byte strings ([String.string]); the functions of Go's
    [strings], [strconv] and [fmt] packages that the code calls are modelled
    on bytes, which is exact on ASCII input (Kubernetes object names are
    ASCII).  Maps are stdpp [gmap]s, slices are lists. *)

From Stdlib Require Import ZArith Ascii String DecimalString.
From stdpp Require Import base option list strings gmap.

Local Open Scope string_scope.

(** ** Go's [strings] package, on bytes *)
Module GoStrings.

(** [strings.HasSuffix]: the last [len suf] bytes of [s] are [suf]. *)
Definition HasSuffix (s suf : string) : bool :=
  if decide (String.length suf ≤ String.length s)%nat
  then bool_decide
         (String.substring (String.length s - String.length suf)
                           (String.length suf) s = suf)
  else false.

(** [strings.TrimSuffix]: [s] without the trailing [suf], if it ends with it. *)
Definition TrimSuffix (s suf : string) : string :=
  if HasSuffix s suf
  then String.substring 0 (String.length s - String.length suf) s
  else s.

(** [strings.Contains]. *)
Fixpoint Contains (s sub : string) : bool :=
  String.prefix sub s ||
  match s with
  | EmptyString => false
  | String _ s' => Contains s' sub
  end.

(** The scan of [strings.ReplaceAll] for a non-empty [old]: leftmost
    non-overlapping occurrences, left to right.  [skip] counts the bytes of
    a match that are still to be dropped. *)
Fixpoint replace_scan (old new s : string) (skip : nat) : string :=
  match s with
  | EmptyString => EmptyString
  | String c s' =>
      match skip with
      | S k => replace_scan old new s' k
      | O => if String.prefix old s
             then new +:+ replace_scan old new s' (String.length old - 1)
             else String c (replace_scan old new s' 0)
      end
  end.

(** With an empty [old], Go inserts [new] before every byte (rune) and at
    the end. *)
Fixpoint replace_empty (new s : string) : string :=
  match s with
  | EmptyString => new
  | String c s' => new +:+ String c (replace_empty new s')
  end.

(** [strings.ReplaceAll s old new]. *)
Definition ReplaceAll (s old new : string) : string :=
  match old with
  | EmptyString => replace_empty new s
  | String _ _ => replace_scan old new s 0
  end.

(** Byte-wise map, the ASCII path of [strings.Map]. *)
Fixpoint map_bytes (f : ascii → ascii) (s : string) : string :=
  match s with
  | EmptyString => EmptyString
  | String c s' => String (f c) (map_bytes f s')
  end.

(** ['a'..'z'] to ['A'..'Z'], every other byte unchanged. *)
Definition upper_byte (c : ascii) : ascii :=
  let n := nat_of_ascii c in
  if decide (97 ≤ n ∧ n ≤ 122)%nat then ascii_of_nat (n - 32) else c.

(** [strings.ToUpper]. *)
Definition ToUpper (s : string) : string := map_bytes upper_byte s.

(** White space as [strings.TrimSpace] sees it in ASCII:
    tab, line feed, vertical tab, form feed, carriage return, space. *)
Definition is_space (c : ascii) : bool :=
  let n := nat_of_ascii c in
  bool_decide (n = 32 ∨ (9 ≤ n ∧ n ≤ 13))%nat.

Fixpoint trim_left (s : string) : string :=
  match s with
  | EmptyString => EmptyString
  | String c s' => if is_space c then trim_left s' else s
  end.

(** Drops trailing white space: a byte is kept when it is not a space or
    when something is kept after it. *)
Fixpoint trim_right (s : string) : string :=
  match s with
  | EmptyString => EmptyString
  | String c s' =>
      match trim_right s' with
      | EmptyString => if is_space c then EmptyString else String c EmptyString
      | t => String c t
      end
  end.

(** [strings.TrimSpace]. *)
Definition TrimSpace (s : string) : string := trim_right (trim_left s).

(** [strings.Split s sep] for a one-byte separator: always at least one
    field. *)
Fixpoint Split (s : string) (sep : ascii) : list string :=
  match s with
  | EmptyString => [EmptyString]
  | String c s' =>
      if decide (c = sep) then EmptyString :: Split s' sep
      else match Split s' sep with
           | [] => [String c EmptyString]
           | f :: fs => String c f :: fs
           end
  end.

End GoStrings.

(** ** internal/resources/naming.go *)
Module Naming.
Import GoStrings.

Definition PVCPrefix : string := "model-".
Definition JobPrefix : string := "model-download-".
Definition VolumePrefix : string := "model-".

Definition PVCName (modelName : string) : string := PVCPrefix +:+ modelName.
Definition JobName (modelName : string) : string := JobPrefix +:+ modelName.
Definition VolumeName (modelName : string) : string := VolumePrefix +:+ modelName.

Definition EnvVarPrefix (modelName : string) : string :=
  let name := ToUpper modelName in
  let name := ReplaceAll name "-" "_" in
  "MODEL_" +:+ name.

Definition DefaultMountPath (modelName : string) : string :=
  "/models/" +:+ modelName.

(** The naming contract as the interface section words it: upper-case the
    name, then turn every ['-'] into ['_'], byte by byte. *)
Definition dash_to_underscore (c : ascii) : ascii :=
  if decide (c = "-"%char) then "_"%char else c.

Definition env_prefix_contract (n : string) : string :=
  "MODEL_" +:+ map_bytes dash_to_underscore (map_bytes upper_byte n).

End Naming.

(** ** Go's [fmt] verbs used by the sources *)
Module GoFmt.

Definition dquote : ascii := ascii_of_nat 34.

(** [%d]. *)
Definition fmt_d (z : Z) : string := NilZero.string_of_int (Z.to_int z).

Definition hex_digit (n : nat) : ascii :=
  match String.get n "0123456789abcdef" with
  | Some c => c
  | None => "0"%char
  end.

(** One byte under [strconv.Quote]: the quote and the backslash are escaped,
    control bytes are written symbolically or as [\x] and two hex digits,
    every other byte is copied. *)
Definition quote_byte (c : ascii) : string :=
  let n := nat_of_ascii c in
  if decide (n = 34) then String "\" (String dquote EmptyString)
  else if decide (n = 92) then "\\"
  else if decide (n = 7) then "\a"
  else if decide (n = 8) then "\b"
  else if decide (n = 12) then "\f"
  else if decide (n = 10) then "\n"
  else if decide (n = 13) then "\r"
  else if decide (n = 9) then "\t"
  else if decide (n = 11) then "\v"
  else if decide (n < 32 ∨ n = 127)%nat
       then "\x" +:+ String (hex_digit (n / 16)) (String (hex_digit (n mod 16)) EmptyString)
  else String c EmptyString.

Fixpoint quote_bytes (s : string) : string :=
  match s with
  | EmptyString => EmptyString
  | String c s' => quote_byte c +:+ quote_bytes s'
  end.

(** [%q] on a string. *)
Definition fmt_q (s : string) : string :=
  String dquote (quote_bytes s +:+ String dquote EmptyString).

End GoFmt.

(** ** api/v1alpha1/model_types.go *)
Module API.

Definition ModelPhase := string.
Definition ModelPhasePending : ModelPhase := "Pending".
Definition ModelPhaseDownloading : ModelPhase := "Downloading".
Definition ModelPhaseReady : ModelPhase := "Ready".
Definition ModelPhaseFailed : ModelPhase := "Failed".

Record HuggingFaceSource := {
  hf_RepoID : string;
  hf_Revision : string;
  hf_Include : list string;
  hf_Exclude : list string }.

Record URLSource := { url_URL : string }.

Record S3Source := {
  s3_Bucket : string;
  s3_Key : string;
  s3_Endpoint : string;
  s3_Region : string }.

Record GitSource := {
  git_URL : string;
  git_Ref : string;
  git_LFS : option bool;
  git_Depth : option Z;
  git_Include : list string;
  git_Exclude : list string }.

(** A struct of four optional pointers; [None] is [nil]. *)
Record ModelSource := {
  HuggingFace : option HuggingFaceSource;
  URL : option URLSource;
  S3 : option S3Source;
  Git : option GitSource }.

Record StorageSpec := {
  StorageClass : string;
  Size : string;
  AccessModes : list string }.

Record ModelSpec := {
  Source : ModelSource;
  Storage : StorageSpec;
  Version : string;
  CredentialsSecret : string;
  NodeSelector : gmap string string }.

(** [metav1.Time]; [None] is Go's zero time. *)
Definition Time := option Z.

Inductive ConditionStatus := ConditionTrue | ConditionFalse | ConditionUnknown.

#[global] Instance ConditionStatus_eq_dec : EqDecision ConditionStatus.
Proof. solve_decision. Defined.

(** [metav1.Condition]. *)
Record Condition := {
  cond_Type : string;
  cond_Status : ConditionStatus;
  cond_ObservedGeneration : Z;
  cond_LastTransitionTime : Time;
  cond_Reason : string;
  cond_Message : string }.

Record ModelStatus := {
  st_Phase : ModelPhase;
  st_PVCName : string;
  st_Message : string;
  st_Progress : Z;
  st_Conditions : list Condition;
  st_ObservedGeneration : Z }.

(** The Model as a Go value: object meta, spec and status. *)
Record Model := {
  m_Name : string;
  m_Namespace : string;
  m_Generation : Z;
  m_Spec : ModelSpec;
  m_Status : ModelStatus }.

Definition with_status (m : Model) (st : ModelStatus) : Model :=
  {| m_Name := m_Name m; m_Namespace := m_Namespace m;
     m_Generation := m_Generation m; m_Spec := m_Spec m; m_Status := st |}.

(** The zero value of [ModelStatus]: the observed state of a new Model. *)
Definition empty_status : ModelStatus :=
  {| st_Phase := ""; st_PVCName := ""; st_Message := ""; st_Progress := 0;
     st_Conditions := []; st_ObservedGeneration := 0 |}.

(** The number of populated source variants. *)
Definition is_set {A} (p : option A) : nat :=
  match p with Some _ => 1 | None => 0 end.

Definition populated (src : ModelSource) : nat :=
  is_set (HuggingFace src) + is_set (URL src) + is_set (S3 src) + is_set (Git src).

End API.

(** ** The orchestrator: objects, store and client calls *)
Module K8s.
Import API.

(** A Go [error]: its text, and whether [apierrors.IsNotFound] holds. *)
Record Error := { err_NotFound : bool; err_Msg : string }.

Definition Errorf (msg : string) : Error :=
  {| err_NotFound := false; err_Msg := msg |}.

(** [apierrors.NewNotFound] for a resource and an object name. *)
Definition NewNotFound (resource name : string) : Error :=
  {| err_NotFound := true;
     err_Msg := resource +:+ " " +:+ GoFmt.fmt_q name +:+ " not found" |}.

(** *** [resource.Quantity] *)

Definition is_digit (c : ascii) : bool :=
  let n := nat_of_ascii c in bool_decide (48 ≤ n ∧ n ≤ 57)%nat.

Fixpoint skip_while (p : ascii → bool) (s : string) : string :=
  match s with
  | EmptyString => EmptyString
  | String c s' => if p c then skip_while p s' else s
  end.

Definition is_sign (c : ascii) : bool :=
  bool_decide (c = "+"%char ∨ c = "-"%char).

Definition skip_sign (s : string) : string :=
  match s with
  | String c s' => if is_sign c then s' else s
  | EmptyString => s
  end.

Fixpoint mem_byte (c : ascii) (set : string) : bool :=
  match set with
  | EmptyString => false
  | String d set' => bool_decide (c = d) || mem_byte c set'
  end.

(** What is left of the text after the signed number: the suffix. *)
Definition quantity_suffix (s : string) : string :=
  let s := skip_while is_digit (skip_sign s) in
  match s with
  | String "."%char s' => skip_while is_digit s'
  | _ => s
  end.

(** The suffix is letters of [eEinumkKMGTP], an optional sign, digits. *)
Definition suffix_shape (suf : string) : bool :=
  let r := skip_while (λ c, mem_byte c "eEinumkKMGTP") suf in
  bool_decide (skip_while is_digit (skip_sign r) = EmptyString).

Fixpoint digits_value (s : string) (acc : Z) : Z :=
  match s with
  | EmptyString => acc
  | String c s' => digits_value s' (10 * acc + (Z.of_nat (nat_of_ascii c) - 48))
  end.

(** [strconv.ParseInt text 10 64] succeeds. *)
Definition parses_int64 (s : string) : bool :=
  let neg := bool_decide (String.prefix "-" s = true) in
  let d := skip_sign s in
  bool_decide (d ≠ EmptyString) &&
  bool_decide (skip_while is_digit d = EmptyString) &&
  (if neg then (digits_value d 0 <=? 2 ^ 63)%Z else (digits_value d 0 <? 2 ^ 63)%Z).

(** The suffixes the quantity tables know, and decimal exponents. *)
Definition suffix_known (suf : string) : bool :=
  bool_decide (suf ∈ ["Ki"; "Mi"; "Gi"; "Ti"; "Pi"; "Ei";
                      "n"; "u"; "m"; ""; "k"; "M"; "G"; "T"; "P"; "E"]) ||
  match suf with
  | String c (String d r) =>
      bool_decide (c = "e"%char ∨ c = "E"%char) && parses_int64 (String d r)
  | _ => false
  end.

Record Quantity := { q_text : string }.

(** Modelled from the spec: [resource.ParseQuantity], which
    [resource.MustParse] wraps, belongs to k8s.io/apimachinery and not to
    this repository.  The spec asks for a number and a unit; the scanner
    follows the grammar of the library: the empty text is refused, then the text
    must be a signed number followed by a well-shaped suffix that the
    suffix tables know ([Ki Mi Gi Ti Pi Ei], [n u m k M G T P E], none) or
    that is a decimal exponent. *)
Definition ParseQuantity (s : string) : option Quantity :=
  if bool_decide (s = EmptyString) then None
  else if suffix_shape (quantity_suffix s) && suffix_known (quantity_suffix s)
       then Some {| q_text := s |}
       else None.

(** *** Objects *)

Record PersistentVolumeClaim := {
  pvc_Name : string;
  pvc_Namespace : string;
  pvc_Labels : gmap string string;
  pvc_AccessModes : list string;
  pvc_StorageClassName : string;
  pvc_Storage : Quantity;
  pvc_Owner : option string }.

Record JobCondition := {
  jc_Type : string;
  jc_Status : ConditionStatus;
  jc_Reason : string;
  jc_Message : string }.

Definition JobFailed : string := "Failed".

(** [batchv1.JobStatus]; the counters are [int32]. *)
Record JobStatus := {
  js_Succeeded : Z;
  js_Failed : Z;
  js_Active : Z;
  js_Conditions : list JobCondition }.

Record JobContainer := { jcn_Name : string; jcn_Image : string }.

Record Job := {
  job_Name : string;
  job_Namespace : string;
  job_Labels : gmap string string;
  job_BackoffLimit : Z;
  job_TTLSecondsAfterFinished : Z;
  job_Container : JobContainer;
  job_ClaimName : string;
  job_NodeSelector : gmap string string;
  job_Owner : option string;
  job_Status : JobStatus }.

(** What the API server keeps of a Model under its (namespace, name) key. *)
Record ModelObject := {
  obj_Generation : Z;
  obj_Spec : ModelSpec;
  obj_Status : ModelStatus }.

(** The calls the two components make. *)
Inductive Op :=
  | OpGetModel | OpUpdateStatus
  | OpGetPVC | OpOwnPVC | OpCreatePVC
  | OpGetJob | OpOwnJob | OpCreateJob.

(** The cluster as one pass sees it: the stored objects, the wall clock,
    and for each call the text of the infrastructure error it meets, if
    any (a timeout, a conflict, a denial: never a not-found). *)
Record Cluster := {
  models : gmap (string * string) ModelObject;
  pvcs : gmap (string * string) PersistentVolumeClaim;
  jobs : gmap (string * string) Job;
  clock : Z;
  faults : Op → option string }.

Definition no_faults : Op → option string := λ _, None.

(** Every call of the pass reaches the API server and is served. *)
Definition healthy (c : Cluster) : Prop := ∀ op, faults c op = None.

Definition with_models (c : Cluster) (ms : gmap (string * string) ModelObject) :=
  {| models := ms; pvcs := pvcs c; jobs := jobs c; clock := clock c; faults := faults c |}.
Definition with_pvcs (c : Cluster) (ps : gmap (string * string) PersistentVolumeClaim) :=
  {| models := models c; pvcs := ps; jobs := jobs c; clock := clock c; faults := faults c |}.
Definition with_jobs (c : Cluster) (js : gmap (string * string) Job) :=
  {| models := models c; pvcs := pvcs c; jobs := js; clock := clock c; faults := faults c |}.

(** The Go value [client.Get] fills in from a stored Model. *)
Definition model_of (ns name : string) (o : ModelObject) : Model :=
  {| m_Name := name; m_Namespace := ns;
     m_Generation := obj_Generation o;
     m_Spec := obj_Spec o; m_Status := obj_Status o |}.

(** [client.Get] on each kind. *)
Definition GetModel (c : Cluster) (ns name : string) : Error + Model :=
  match faults c OpGetModel with
  | Some e => inl (Errorf e)
  | None =>
      match models c !! (ns, name) with
      | Some o => inr (model_of ns name o)
      | None => inl (NewNotFound "models.models.main-currents.news" name)
      end
  end.

Definition GetPVC (c : Cluster) (ns name : string) : Error + PersistentVolumeClaim :=
  match faults c OpGetPVC with
  | Some e => inl (Errorf e)
  | None =>
      match pvcs c !! (ns, name) with
      | Some p => inr p
      | None => inl (NewNotFound "persistentvolumeclaims" name)
      end
  end.

Definition GetJob (c : Cluster) (ns name : string) : Error + Job :=
  match faults c OpGetJob with
  | Some e => inl (Errorf e)
  | None =>
      match jobs c !! (ns, name) with
      | Some j => inr j
      | None => inl (NewNotFound "jobs.batch" name)
      end
  end.

(** [client.Create]. *)
Definition CreatePVC (c : Cluster) (p : PersistentVolumeClaim) : Error + Cluster :=
  match faults c OpCreatePVC with
  | Some e => inl (Errorf e)
  | None =>
      match pvcs c !! (pvc_Namespace p, pvc_Name p) with
      | Some _ => inl (Errorf ("persistentvolumeclaims " +:+ GoFmt.fmt_q (pvc_Name p)
                               +:+ " already exists"))
      | None => inr (with_pvcs c (<[(pvc_Namespace p, pvc_Name p) := p]> (pvcs c)))
      end
  end.

Definition CreateJob (c : Cluster) (j : Job) : Error + Cluster :=
  match faults c OpCreateJob with
  | Some e => inl (Errorf e)
  | None =>
      match jobs c !! (job_Namespace j, job_Name j) with
      | Some _ => inl (Errorf ("jobs.batch " +:+ GoFmt.fmt_q (job_Name j)
                               +:+ " already exists"))
      | None => inr (with_jobs c (<[(job_Namespace j, job_Name j) := j]> (jobs c)))
      end
  end.

(** [client.Status().Update]: the status of the stored object is replaced. *)
Definition StatusUpdate (c : Cluster) (m : Model) : Error + Cluster :=
  match faults c OpUpdateStatus with
  | Some e => inl (Errorf e)
  | None =>
      match models c !! (m_Namespace m, m_Name m) with
      | Some o =>
          inr (with_models c
                 (<[(m_Namespace m, m_Name m) :=
                      {| obj_Generation := obj_Generation o;
                         obj_Spec := obj_Spec o;
                         obj_Status := m_Status m |}]> (models c)))
      | None => inl (NewNotFound "models.models.main-currents.news" (m_Name m))
      end
  end.

(** [controllerutil.SetControllerReference] on a freshly built object. *)
Definition OwnPVC (c : Cluster) (m : Model) (p : PersistentVolumeClaim)
  : Error + PersistentVolumeClaim :=
  match faults c OpOwnPVC with
  | Some e => inl (Errorf e)
  | None => inr {| pvc_Name := pvc_Name p; pvc_Namespace := pvc_Namespace p;
                   pvc_Labels := pvc_Labels p; pvc_AccessModes := pvc_AccessModes p;
                   pvc_StorageClassName := pvc_StorageClassName p;
                   pvc_Storage := pvc_Storage p; pvc_Owner := Some (m_Name m) |}
  end.

Definition OwnJob (c : Cluster) (m : Model) (j : Job) : Error + Job :=
  match faults c OpOwnJob with
  | Some e => inl (Errorf e)
  | None => inr {| job_Name := job_Name j; job_Namespace := job_Namespace j;
                   job_Labels := job_Labels j; job_BackoffLimit := job_BackoffLimit j;
                   job_TTLSecondsAfterFinished := job_TTLSecondsAfterFinished j;
                   job_Container := job_Container j; job_ClaimName := job_ClaimName j;
                   job_NodeSelector := job_NodeSelector j;
                   job_Owner := Some (m_Name m); job_Status := job_Status j |}
  end.

(** The stored phase of a Model, if the Model exists. *)
Definition stored_status (c : Cluster) (ns name : string) : option ModelStatus :=
  obj_Status <$> models c !! (ns, name).

Definition stored_phase (c : Cluster) (ns name : string) : option ModelPhase :=
  st_Phase <$> stored_status c ns name.

End K8s.

(** ** internal/resources/pvc.go and job.go *)
Module Resources.
Import API K8s Naming.

(** [BuildPVC]; [None] is the panic of [resource.MustParse] on a size that
    is not a quantity. *)
Definition BuildPVC (model : Model) : option PersistentVolumeClaim :=
  let storageClass := StorageClass (Storage (m_Spec model)) in
  let accessModes := AccessModes (Storage (m_Spec model)) in
  let accessModes :=
    if bool_decide (length accessModes = 0%nat) then ["ReadWriteOnce"] else accessModes in
  match ParseQuantity (Size (Storage (m_Spec model))) with
  | None => None
  | Some q =>
      Some {| pvc_Name := PVCName (m_Name model);
              pvc_Namespace := m_Namespace model;
              pvc_Labels :=
                <["app.kubernetes.io/name" := "model"]>
                (<["app.kubernetes.io/instance" := m_Name model]>
                 (<["app.kubernetes.io/managed-by" := "model-operator"]> ∅));
              pvc_AccessModes := accessModes;
              pvc_StorageClassName := storageClass;
              pvc_Storage := q;
              pvc_Owner := None |}
  end.

Definition backoffLimit : Z := 3.
Definition ttlSecondsAfterFinished : Z := 3600.

Definition huggingFaceImage : string := "python:3.11-slim".
Definition s3Image : string := "amazon/aws-cli:latest".
Definition urlImage : string := "curlimages/curl:latest".
Definition gitImage : string := "alpine/git:latest".

(** The four container builders; the shell script each of them renders is
    left out, no property below reads it. *)
Definition buildHuggingFaceContainer (model : Model) : JobContainer :=
  {| jcn_Name := "downloader"; jcn_Image := huggingFaceImage |}.
Definition buildS3Container (model : Model) : JobContainer :=
  {| jcn_Name := "downloader"; jcn_Image := s3Image |}.
Definition buildURLContainer (model : Model) : JobContainer :=
  {| jcn_Name := "downloader"; jcn_Image := urlImage |}.
Definition buildGitContainer (model : Model) : JobContainer :=
  {| jcn_Name := "downloader"; jcn_Image := gitImage |}.

Definition empty_job_status : JobStatus :=
  {| js_Succeeded := 0; js_Failed := 0; js_Active := 0; js_Conditions := [] |}.

(** The [switch] of [BuildDownloadJob]: the first populated variant, in the
    order HuggingFace, S3, URL, Git; an error when none is. *)
Definition download_container (model : Model) : Error + JobContainer :=
  let source := Source (m_Spec model) in
  match HuggingFace source, S3 source, URL source, Git source with
  | Some _, _, _, _ => inr (buildHuggingFaceContainer model)
  | None, Some _, _, _ => inr (buildS3Container model)
  | None, None, Some _, _ => inr (buildURLContainer model)
  | None, None, None, Some _ => inr (buildGitContainer model)
  | None, None, None, None =>
      inl (Errorf ("no source specified in model " +:+ m_Name model))
  end.

Definition BuildDownloadJob (model : Model) : Error + Job :=
  match download_container model with
  | inl e => inl e
  | inr container =>
      inr {| job_Name := JobName (m_Name model);
             job_Namespace := m_Namespace model;
             job_Labels :=
               <["app.kubernetes.io/name" := "model-downloader"]>
               (<["app.kubernetes.io/instance" := m_Name model]>
                (<["app.kubernetes.io/managed-by" := "model-operator"]> ∅));
             job_BackoffLimit := backoffLimit;
             job_TTLSecondsAfterFinished := ttlSecondsAfterFinished;
             job_Container := container;
             job_ClaimName := PVCName (m_Name model);
             job_NodeSelector := NodeSelector (m_Spec model);
             job_Owner := None;
             job_Status := empty_job_status |}
  end.

End Resources.

(** ** Package controller: the Model reconciler *)
Module Controller.
Import API K8s Naming Resources.

(** [time.Duration] counts nanoseconds. *)
Definition Second : Z := 1000000000.
Definition Minute : Z := 60 * Second.

Definition requeuePending : Z := 10 * Second.
Definition requeueDownloading : Z := 15 * Second.
Definition requeueReady : Z := 5 * Minute.
Definition requeueFailed : Z := 1 * Minute.

Definition conditionTypeReady : string := "Ready".

(** The four values of the phase enumeration. *)
Definition valid_phase (p : ModelPhase) : Prop :=
  p = ModelPhasePending ∨ p = ModelPhaseDownloading
  ∨ p = ModelPhaseReady ∨ p = ModelPhaseFailed.

(** How a pass ends: [(ctrl.Result{RequeueAfter}, nil)], an error handed to
    the framework, or a panic. *)
Inductive Outcome :=
  | Requeue (after : Z)
  | Failure (err : Error)
  | Panic.

(** [meta.FindStatusCondition]: the first condition of the type. *)
Fixpoint FindStatusCondition (conds : list Condition) (ty : string) : option Condition :=
  match conds with
  | [] => None
  | c :: rest => if bool_decide (cond_Type c = ty) then Some c
                 else FindStatusCondition rest ty
  end.

(** The in-place merge of [meta.SetStatusCondition] into the existing
    condition: the transition time follows the new condition only when the
    status differs; reason, message and observed generation are refreshed. *)
Definition merge_condition (now : Z) (old new : Condition) : Condition :=
  {| cond_Type := cond_Type old;
     cond_Status := cond_Status new;
     cond_ObservedGeneration := cond_ObservedGeneration new;
     cond_LastTransitionTime :=
       if bool_decide (cond_Status old = cond_Status new)
       then cond_LastTransitionTime old
       else match cond_LastTransitionTime new with
            | Some t => Some t
            | None => Some now
            end;
     cond_Reason := cond_Reason new;
     cond_Message := cond_Message new |}.

Fixpoint merge_first (now : Z) (conds : list Condition) (new : Condition) : list Condition :=
  match conds with
  | [] => []
  | c :: rest => if bool_decide (cond_Type c = cond_Type new)
                 then merge_condition now c new :: rest
                 else c :: merge_first now rest new
  end.

(** Modelled from the spec: [meta.SetStatusCondition] belongs to
    k8s.io/apimachinery and not to this repository.  A condition of a new type
    is appended (stamped with the current time if it carries none); an
    existing one keeps its transition time unless its status changes. *)
Definition SetStatusCondition (now : Z) (conds : list Condition) (new : Condition)
  : list Condition :=
  match FindStatusCondition conds (cond_Type new) with
  | None =>
      conds ++ [ {| cond_Type := cond_Type new;
                    cond_Status := cond_Status new;
                    cond_ObservedGeneration := cond_ObservedGeneration new;
                    cond_LastTransitionTime :=
                      match cond_LastTransitionTime new with
                      | Some t => Some t
                      | None => Some now
                      end;
                    cond_Reason := cond_Reason new;
                    cond_Message := cond_Message new |} ]
  | Some _ => merge_first now conds new
  end.

(** The Ready condition [updateStatusWithProgress] computes for a phase. *)
Definition ready_condition (now : Z) (model : Model) (phase : ModelPhase)
    (message : string) : Condition :=
  let status := if bool_decide (phase = ModelPhaseReady) then ConditionTrue
                else ConditionFalse in
  let reason := if bool_decide (phase = ModelPhaseReady) then "DownloadComplete"
                else if bool_decide (phase = ModelPhaseFailed) then "DownloadFailed"
                else "InProgress" in
  {| cond_Type := conditionTypeReady;
     cond_Status := status;
     cond_ObservedGeneration := m_Generation model;
     cond_LastTransitionTime := Some now;
     cond_Reason := reason;
     cond_Message := message |}.

(** The status [updateStatusWithProgress] submits. *)
Definition next_status (now : Z) (model : Model) (phase : ModelPhase)
    (message : string) (progress : Z) : ModelStatus :=
  {| st_Phase := phase;
     st_PVCName := PVCName (m_Name model);
     st_Message := message;
     st_Progress := progress;
     st_Conditions :=
       SetStatusCondition now (st_Conditions (m_Status model))
         (ready_condition now model phase message);
     st_ObservedGeneration := m_Generation model |}.

Definition requeue_for (phase : ModelPhase) : Z :=
  if bool_decide (phase = ModelPhasePending) then requeuePending
  else if bool_decide (phase = ModelPhaseDownloading) then requeueDownloading
  else if bool_decide (phase = ModelPhaseReady) then requeueReady
  else if bool_decide (phase = ModelPhaseFailed) then requeueFailed
  else 0.

Definition updateStatusWithProgress (c : Cluster) (model : Model)
    (phase : ModelPhase) (message : string) (progress : Z) : Cluster * Outcome :=
  let model := with_status model (next_status (clock c) model phase message progress) in
  match StatusUpdate c model with
  | inl err => (c, Failure err)
  | inr c' => (c', Requeue (requeue_for phase))
  end.

Definition updateStatus (c : Cluster) (model : Model) (phase : ModelPhase)
    (message : string) : Cluster * Outcome :=
  updateStatusWithProgress c model phase message (st_Progress (m_Status model)).

(** The second half of [reconcilePending], from building the Job on. *)
Definition pending_job (c : Cluster) (model : Model) : Cluster * Outcome :=
  match BuildDownloadJob model with
  | inl err =>
      updateStatus c model ModelPhaseFailed
        ("Failed to build download Job: " +:+ err_Msg err)
  | inr job =>
      match OwnJob c model job with
      | inl err => (c, Failure err)
      | inr job =>
          match GetJob c (job_Namespace job) (job_Name job) with
          | inr _ => updateStatus c model ModelPhaseDownloading "Download started"
          | inl err =>
              if err_NotFound err then
                match CreateJob c job with
                | inl err =>
                    updateStatus c model ModelPhasePending
                      ("Failed to create Job: " +:+ err_Msg err)
                | inr c' =>
                    updateStatus c' model ModelPhaseDownloading "Download started"
                end
              else (c, Failure err)
          end
      end
  end.

Definition reconcilePending (c : Cluster) (model : Model) : Cluster * Outcome :=
  match BuildPVC model with
  | None => (c, Panic)
  | Some pvc =>
      match OwnPVC c model pvc with
      | inl err => (c, Failure err)
      | inr pvc =>
          match GetPVC c (pvc_Namespace pvc) (pvc_Name pvc) with
          | inr _ => pending_job c model
          | inl err =>
              if err_NotFound err then
                match CreatePVC c pvc with
                | inl err =>
                    updateStatus c model ModelPhasePending
                      ("Failed to create PVC: " +:+ err_Msg err)
                | inr c' => pending_job c' model
                end
              else (c, Failure err)
          end
      end
  end.

(** The first condition of type Failed with status True, as the [for] loop
    of [reconcileDownloading] finds it. *)
Fixpoint failed_condition (conds : list JobCondition) : option JobCondition :=
  match conds with
  | [] => None
  | cond :: rest =>
      if bool_decide (jc_Type cond = JobFailed)
         && bool_decide (jc_Status cond = ConditionTrue)
      then Some cond
      else failed_condition rest
  end.

(** The message of a Job that neither succeeded nor failed. *)
Definition progress_message (job : Job) : string :=
  if (0 <? js_Active (job_Status job))%Z
  then "Download in progress (active pods: "
       +:+ GoFmt.fmt_d (js_Active (job_Status job)) +:+ ")"
  else "Download in progress".

(** The tail of [reconcileDownloading]: the status is written only to fill
    in a missing PVC name. *)
Definition still_downloading (c : Cluster) (model : Model) (job : Job)
  : Cluster * Outcome :=
  let message := progress_message job in
  if bool_decide (st_PVCName (m_Status model) = "") then
    let st := m_Status model in
    let model :=
      with_status model
        {| st_Phase := st_Phase st;
           st_PVCName := PVCName (m_Name model);
           st_Message := message;
           st_Progress := st_Progress st;
           st_Conditions := st_Conditions st;
           st_ObservedGeneration := m_Generation model |} in
    match StatusUpdate c model with
    | inl err => (c, Failure err)
    | inr c' => (c', Requeue requeueDownloading)
    end
  else (c, Requeue requeueDownloading).

Definition reconcileDownloading (c : Cluster) (model : Model) : Cluster * Outcome :=
  let jobName := JobName (m_Name model) in
  match GetJob c (m_Namespace model) jobName with
  | inl err =>
      if err_NotFound err
      then updateStatus c model ModelPhasePending "Job not found, recreating"
      else (c, Failure err)
  | inr job =>
      if (0 <? js_Succeeded (job_Status job))%Z then
        updateStatusWithProgress c model ModelPhaseReady "Download complete" 100
      else
        match (if (0 <? js_Failed (job_Status job))%Z
               then failed_condition (js_Conditions (job_Status job))
               else None) with
        | Some cond =>
            updateStatus c model ModelPhaseFailed
              ("Download failed: " +:+ jc_Message cond)
        | None => still_downloading c model job
        end
  end.

Definition reconcileReady (c : Cluster) (model : Model) : Cluster * Outcome :=
  let pvcName := PVCName (m_Name model) in
  match GetPVC c (m_Namespace model) pvcName with
  | inl err =>
      if err_NotFound err
      then updateStatus c model ModelPhasePending "PVC was deleted, recreating"
      else (c, Failure err)
  | inr _ => (c, Requeue requeueReady)
  end.

Definition reconcileFailed (c : Cluster) (model : Model) : Cluster * Outcome :=
  let jobName := JobName (m_Name model) in
  match GetJob c (m_Namespace model) jobName with
  | inl err =>
      if err_NotFound err
      then updateStatus c model ModelPhasePending "Retrying download"
      else (c, Failure err)
  | inr _ => (c, Requeue requeueFailed)
  end.

(** [Reconcile] for the request [(ns, name)]. *)
Definition Reconcile (c : Cluster) (ns name : string) : Cluster * Outcome :=
  match GetModel c ns name with
  | inl err => if err_NotFound err then (c, Requeue 0) else (c, Failure err)
  | inr model =>
      let phase := st_Phase (m_Status model) in
      let phase := if bool_decide (phase = "") then ModelPhasePending else phase in
      if bool_decide (phase = ModelPhasePending) then reconcilePending c model
      else if bool_decide (phase = ModelPhaseDownloading) then reconcileDownloading c model
      else if bool_decide (phase = ModelPhaseReady) then reconcileReady c model
      else if bool_decide (phase = ModelPhaseFailed) then reconcileFailed c model
      else updateStatus c model ModelPhasePending "Unknown phase, resetting"
  end.

End Controller.

(** ** Package webhook: the Pod mutator *)
Module Webhook.
Import API K8s Naming GoStrings.

Definition AnnotationInject : string := "models.main-currents.news/inject".
Definition AnnotationMountPath : string := "models.main-currents.news/mount-path".
Definition AnnotationReadOnly : string := "models.main-currents.news/read-only".
Definition AnnotationContainer : string := "models.main-currents.news/container".
Definition AnnotationInjectEnv : string := "models.main-currents.news/inject-env".
Definition LabelInjected : string := "models.main-currents.news/injected".

Record injectionOptions := {
  MountPath : string;
  ReadOnly : bool;
  ContainerName : string;
  InjectEnv : bool }.

Record VolumeMount := { vm_Name : string; vm_MountPath : string; vm_ReadOnly : bool }.
Record EnvVar := { env_Name : string; env_Value : string }.

Record Container := {
  c_Name : string;
  c_VolumeMounts : list VolumeMount;
  c_Env : list EnvVar }.

Record PVCVolumeSource := { ClaimName : string; pvs_ReadOnly : bool }.
Record Volume := { v_Name : string; v_PersistentVolumeClaim : option PVCVolumeSource }.

(** The parts of a Pod the injector reads or writes.  A [nil] map and an
    empty one behave alike in the handler and are both [∅]. *)
Record Pod := {
  Labels : gmap string string;
  Annotations : gmap string string;
  Volumes : list Volume;
  Containers : list Container }.

Definition with_volumes (pod : Pod) (vs : list Volume) : Pod :=
  {| Labels := Labels pod; Annotations := Annotations pod;
     Volumes := vs; Containers := Containers pod |}.
Definition with_containers (pod : Pod) (cs : list Container) : Pod :=
  {| Labels := Labels pod; Annotations := Annotations pod;
     Volumes := Volumes pod; Containers := cs |}.
Definition with_labels (pod : Pod) (ls : gmap string string) : Pod :=
  {| Labels := ls; Annotations := Annotations pod;
     Volumes := Volumes pod; Containers := Containers pod |}.

(** An admission request: the namespace and the decoded object, or the
    decoder's error. *)
Record Request := {
  req_Name : string;
  req_Namespace : string;
  req_Object : Error + Pod }.

(** [admission.Response]: the verdict, its status code and message, and the
    object the JSON patch leads to ([None]: no patch). *)
Record Response := {
  Allowed : bool;
  Code : Z;
  Message : string;
  Patched : option Pod }.

Definition AllowedResp (msg : string) : Response :=
  {| Allowed := true; Code := 200; Message := msg; Patched := None |}.
Definition Denied (msg : string) : Response :=
  {| Allowed := false; Code := 403; Message := msg; Patched := None |}.
Definition Errored (code : Z) (err : Error) : Response :=
  {| Allowed := false; Code := code; Message := err_Msg err; Patched := None |}.
Definition PatchResponse (pod : Pod) : Response :=
  {| Allowed := true; Code := 200; Message := ""; Patched := Some pod |}.

Definition parseOptions (annotations : gmap string string) : injectionOptions :=
  {| MountPath := default "" (annotations !! AnnotationMountPath);
     ReadOnly :=
       match annotations !! AnnotationReadOnly with
       | Some v => bool_decide (v ≠ "false")
       | None => true
       end;
     ContainerName := default "" (annotations !! AnnotationContainer);
     InjectEnv :=
       match annotations !! AnnotationInjectEnv with
       | Some v => bool_decide (v ≠ "false")
       | None => true
       end |}.

Definition injectVolume (pod : Pod) (model : Model) : Pod :=
  let volumeName := VolumeName (m_Name model) in
  let pvcName := PVCName (m_Name model) in
  if existsb (λ v, bool_decide (v_Name v = volumeName)) (Volumes pod) then pod
  else with_volumes pod
         (Volumes pod ++
          [ {| v_Name := volumeName;
               v_PersistentVolumeClaim :=
                 Some {| ClaimName := pvcName; pvs_ReadOnly := true |} |} ]).

(** The mount path as [injectVolumeMount] determines it. *)
Definition mount_path_of_mount (model : Model) (opts : injectionOptions) : string :=
  let mountPath := MountPath opts in
  if bool_decide (mountPath = "") then DefaultMountPath (m_Name model)
  else if Contains (MountPath opts) "{name}"
       then ReplaceAll (MountPath opts) "{name}" (m_Name model)
  else if negb (HasSuffix mountPath (m_Name model))
       then TrimSuffix mountPath "/" +:+ "/" +:+ m_Name model
  else mountPath.

(** The index of the first container with the given name. *)
Fixpoint find_container (cs : list Container) (name : string) : option nat :=
  match cs with
  | [] => None
  | c :: rest => if bool_decide (c_Name c = name) then Some 0%nat
                 else S <$> find_container rest name
  end.

Definition add_mount (mount : VolumeMount) (c : Container) : Container :=
  {| c_Name := c_Name c;
     c_VolumeMounts := c_VolumeMounts c ++ [mount];
     c_Env := c_Env c |}.

Definition injectVolumeMount (pod : Pod) (model : Model) (opts : injectionOptions)
  : Error + Pod :=
  if bool_decide (length (Containers pod) = 0%nat)
  then inl (Errorf "pod has no containers")
  else
    let volumeName := VolumeName (m_Name model) in
    let mount := {| vm_Name := volumeName;
                    vm_MountPath := mount_path_of_mount model opts;
                    vm_ReadOnly := ReadOnly opts |} in
    let target :=
      if bool_decide (ContainerName opts ≠ "")
      then find_container (Containers pod) (ContainerName opts)
      else Some 0%nat in
    match target with
    | None =>
        inl (Errorf ("container " +:+ GoFmt.fmt_q (ContainerName opts) +:+ " not found"))
    | Some containerIdx =>
        (* the index is in range, see [find_container_lookup] *)
        match Containers pod !! containerIdx with
        | None => inr pod
        | Some c =>
            if existsb (λ m, bool_decide (vm_Name m = volumeName)) (c_VolumeMounts c)
            then inr pod
            else inr (with_containers pod
                        (<[containerIdx := add_mount mount c]> (Containers pod)))
        end
    end.

(** The mount path as [injectEnvVars] determines it (the same text again). *)
Definition mount_path_of_env (model : Model) (opts : injectionOptions) : string :=
  let mountPath := MountPath opts in
  if bool_decide (mountPath = "") then DefaultMountPath (m_Name model)
  else if Contains (MountPath opts) "{name}"
       then ReplaceAll (MountPath opts) "{name}" (m_Name model)
  else if negb (HasSuffix mountPath (m_Name model))
       then TrimSuffix mountPath "/" +:+ "/" +:+ m_Name model
  else mountPath.

(** The source-specific variables: a three-way [switch]. *)
Definition source_env (prefix : string) (source : ModelSource) : list EnvVar :=
  match HuggingFace source, S3 source, URL source with
  | Some hf, _, _ =>
      [ {| env_Name := prefix +:+ "_SOURCE_TYPE"; env_Value := "huggingface" |};
        {| env_Name := prefix +:+ "_REPO_ID"; env_Value := hf_RepoID hf |} ]
  | None, Some s3, _ =>
      [ {| env_Name := prefix +:+ "_SOURCE_TYPE"; env_Value := "s3" |};
        {| env_Name := prefix +:+ "_BUCKET"; env_Value := s3_Bucket s3 |} ]
  | None, None, Some u =>
      [ {| env_Name := prefix +:+ "_SOURCE_TYPE"; env_Value := "url" |};
        {| env_Name := prefix +:+ "_URL"; env_Value := url_URL u |} ]
  | None, None, None => []
  end.

(** The variables [injectEnvVars] builds before looking at the container. *)
Definition model_env (model : Model) (opts : injectionOptions) : list EnvVar :=
  let prefix := EnvVarPrefix (m_Name model) in
  [ {| env_Name := prefix +:+ "_NAME"; env_Value := m_Name model |};
    {| env_Name := prefix +:+ "_MOUNT_PATH"; env_Value := mount_path_of_env model opts |} ]
  ++ (if bool_decide (Version (m_Spec model) ≠ "")
      then [ {| env_Name := prefix +:+ "_VERSION"; env_Value := Version (m_Spec model) |} ]
      else [])
  ++ source_env prefix (Source (m_Spec model)).

(** The variables whose name the container does not have yet. *)
Definition fresh_env (existing envVars : list EnvVar) : list EnvVar :=
  filter (λ env, env_Name env ∉ env_Name <$> existing) envVars.

Definition add_env (envVars : list EnvVar) (c : Container) : Container :=
  {| c_Name := c_Name c;
     c_VolumeMounts := c_VolumeMounts c;
     c_Env := c_Env c ++ fresh_env (c_Env c) envVars |}.

Definition injectEnvVars (pod : Pod) (model : Model) (opts : injectionOptions)
  : Error + Pod :=
  if bool_decide (length (Containers pod) = 0%nat)
  then inl (Errorf "pod has no containers")
  else
    let envVars := model_env model opts in
    let containerIdx :=
      if bool_decide (ContainerName opts ≠ "")
      then default 0%nat (find_container (Containers pod) (ContainerName opts))
      else 0%nat in
    match Containers pod !! containerIdx with
    | None => inr pod
    | Some c =>
        inr (with_containers pod (<[containerIdx := add_env envVars c]> (Containers pod)))
    end.

(** One round of the loop of [Handle] for a trimmed, non-empty name. *)
Definition inject_one (c : Cluster) (ns : string) (opts : injectionOptions)
    (name : string) (pod : Pod) : Response + Pod :=
  match GetModel c ns name with
  | inl err =>
      inl (Denied ("model " +:+ GoFmt.fmt_q name +:+ " not found: " +:+ err_Msg err))
  | inr model =>
      if bool_decide (st_Phase (m_Status model) ≠ ModelPhaseReady) then
        inl (Denied ("model " +:+ GoFmt.fmt_q name +:+ " is not ready (phase: "
                     +:+ st_Phase (m_Status model) +:+ ")"))
      else
        let pod := injectVolume pod model in
        match injectVolumeMount pod model opts with
        | inl err =>
            inl (Denied ("failed to inject volume mount for model "
                         +:+ GoFmt.fmt_q name +:+ ": " +:+ err_Msg err))
        | inr pod =>
            if InjectEnv opts then
              match injectEnvVars pod model opts with
              | inl err =>
                  inl (Denied ("failed to inject env vars for model "
                               +:+ GoFmt.fmt_q name +:+ ": " +:+ err_Msg err))
              | inr pod => inr pod
              end
            else inr pod
        end
  end.

(** The loop over the names of the inject annotation. *)
Fixpoint inject_all (c : Cluster) (ns : string) (opts : injectionOptions)
    (modelNames : list string) (pod : Pod) : Response + Pod :=
  match modelNames with
  | [] => inr pod
  | name :: rest =>
      let name := TrimSpace name in
      if bool_decide (name = "") then inject_all c ns opts rest pod
      else match inject_one c ns opts name pod with
           | inl resp => inl resp
           | inr pod => inject_all c ns opts rest pod
           end
  end.

Definition StatusBadRequest : Z := 400.

(** The names the loop works on: trimmed, the empty ones dropped. *)
Definition model_names (fields : list string) : list string :=
  filter (λ n, n ≠ "") (TrimSpace <$> fields).

(** The workload offers no container to inject into: it has none, or the
    container option names one it does not have. *)
Definition bad_target (cs : list Container) (opts : injectionOptions) : Prop :=
  cs = [] ∨ (ContainerName opts ≠ "" ∧ find_container cs (ContainerName opts) = None).

(** The message of a denial, by its cause, for the model name [n]. *)
Definition deny_reason (c : Cluster) (ns : string) (opts : injectionOptions)
    (cs : list Container) (n msg : string) : Prop :=
  (∃ err, GetModel c ns n = inl err
          ∧ msg = "model " +:+ GoFmt.fmt_q n +:+ " not found: " +:+ err_Msg err)
  ∨ (∃ model, GetModel c ns n = inr model
              ∧ st_Phase (m_Status model) ≠ ModelPhaseReady
              ∧ msg = "model " +:+ GoFmt.fmt_q n +:+ " is not ready (phase: "
                      +:+ st_Phase (m_Status model) +:+ ")")
  ∨ (cs = []
     ∧ msg = "failed to inject volume mount for model " +:+ GoFmt.fmt_q n
             +:+ ": pod has no containers")
  ∨ (ContainerName opts ≠ "" ∧ find_container cs (ContainerName opts) = None
     ∧ msg = "failed to inject volume mount for model " +:+ GoFmt.fmt_q n
             +:+ ": container " +:+ GoFmt.fmt_q (ContainerName opts) +:+ " not found").

(** [ModelInjector.Handle].  [json.Marshal] of a Pod does not fail. *)
Definition Handle (c : Cluster) (req : Request) : Response :=
  match req_Object req with
  | inl err => Errored StatusBadRequest err
  | inr pod =>
      if bool_decide (Labels pod !! LabelInjected = Some "true")
      then AllowedResp "already injected"
      else
        match Annotations pod !! AnnotationInject with
        | None => AllowedResp "no injection requested"
        | Some injectAnnotation =>
            if bool_decide (injectAnnotation = "")
            then AllowedResp "no injection requested"
            else
              let opts := parseOptions (Annotations pod) in
              let modelNames := Split injectAnnotation ","%char in
              match inject_all c (req_Namespace req) opts modelNames pod with
              | inl resp => resp
              | inr pod =>
                  PatchResponse (with_labels pod (<[LabelInjected := "true"]> (Labels pod)))
              end
        end
  end.

End Webhook.

(** ** Sample objects: one Model [default/m1] in a small cluster *)
Module Samples.
Import API K8s Naming Resources Controller Webhook.

Definition hf : HuggingFaceSource :=
  {| hf_RepoID := "meta-llama/Llama-3.1-8B-Instruct"; hf_Revision := "main";
     hf_Include := []; hf_Exclude := [] |}.
Definition s3 : S3Source :=
  {| s3_Bucket := "models"; s3_Key := "llama/"; s3_Endpoint := ""; s3_Region := "" |}.
Definition git : GitSource :=
  {| git_URL := "https://example.com/org/model.git"; git_Ref := "main";
     git_LFS := None; git_Depth := None; git_Include := []; git_Exclude := [] |}.

Definition source_none : ModelSource :=
  {| HuggingFace := None; URL := None; S3 := None; Git := None |}.
Definition source_hf : ModelSource :=
  {| HuggingFace := Some hf; URL := None; S3 := None; Git := None |}.
Definition source_hf_s3 : ModelSource :=
  {| HuggingFace := Some hf; URL := None; S3 := Some s3; Git := None |}.
Definition source_git : ModelSource :=
  {| HuggingFace := None; URL := None; S3 := None; Git := Some git |}.

Definition spec_of (src : ModelSource) (size : string) : ModelSpec :=
  {| Source := src;
     Storage := {| StorageClass := "standard"; Size := size; AccessModes := [] |};
     Version := ""; CredentialsSecret := ""; NodeSelector := ∅ |}.

Definition status_at (phase pvcName message : string) (conds : list Condition)
  : ModelStatus :=
  {| st_Phase := phase; st_PVCName := pvcName; st_Message := message;
     st_Progress := 0; st_Conditions := conds; st_ObservedGeneration := 1 |}.

Definition object_of (spec : ModelSpec) (st : ModelStatus) : ModelObject :=
  {| obj_Generation := 1; obj_Spec := spec; obj_Status := st |}.

Definition cluster_with (o : ModelObject)
    (ps : gmap (string * string) PersistentVolumeClaim)
    (js : gmap (string * string) Job) : Cluster :=
  {| models := {[ ("default", "m1") := o ]}; pvcs := ps; jobs := js;
     clock := 1700000000; faults := no_faults |}.

(** A new Model with one source and a size that is a quantity. *)
Definition fresh_hf : Cluster :=
  cluster_with (object_of (spec_of source_hf "20Gi") empty_status) ∅ ∅.

(** The same with a size the schema pattern admits but that is no quantity. *)
Definition fresh_hf_20K : Cluster :=
  cluster_with (object_of (spec_of source_hf "20K") empty_status) ∅ ∅.

(** New Models with no source, and with two. *)
Definition fresh_none : Cluster :=
  cluster_with (object_of (spec_of source_none "20Gi") empty_status) ∅ ∅.
Definition fresh_hf_s3 : Cluster :=
  cluster_with (object_of (spec_of source_hf_s3 "20Gi") empty_status) ∅ ∅.

(** The download Job of [m1] with a given status. *)
Definition job_with (st : JobStatus) : Job :=
  {| job_Name := JobName "m1"; job_Namespace := "default"; job_Labels := ∅;
     job_BackoffLimit := backoffLimit;
     job_TTLSecondsAfterFinished := ttlSecondsAfterFinished;
     job_Container := {| jcn_Name := "downloader"; jcn_Image := huggingFaceImage |};
     job_ClaimName := PVCName "m1"; job_NodeSelector := ∅;
     job_Owner := Some "m1"; job_Status := st |}.

Definition two_active : JobStatus :=
  {| js_Succeeded := 0; js_Failed := 0; js_Active := 2; js_Conditions := [] |}.

Definition in_progress : Condition :=
  {| cond_Type := "Ready"; cond_Status := ConditionFalse;
     cond_ObservedGeneration := 1; cond_LastTransitionTime := Some 1699999000%Z;
     cond_Reason := "InProgress"; cond_Message := "Download started" |}.

Definition succeeded_once : JobStatus :=
  {| js_Succeeded := 1; js_Failed := 0; js_Active := 0; js_Conditions := [] |}.

Definition backoff_exceeded : JobCondition :=
  {| jc_Type := "Failed"; jc_Status := ConditionTrue;
     jc_Reason := "BackoffLimitExceeded";
     jc_Message := "Job has reached the specified backoff limit" |}.

Definition failed_out : JobStatus :=
  {| js_Succeeded := 0; js_Failed := 4; js_Active := 0;
     js_Conditions := [backoff_exceeded] |}.

Definition downloading_object : ModelObject :=
  object_of (spec_of source_hf "20Gi")
    (status_at "Downloading" "model-m1" "Download started" [in_progress]).

(** [m1] as the Pending pass leaves it, its Job in a given state. *)
Definition downloading_job (js : JobStatus) : Cluster :=
  cluster_with downloading_object
    ∅ {[ ("default", "model-download-m1") := job_with js ]}.

(** The Job running two pods. *)
Definition downloading : Cluster := downloading_job two_active.

(** The Job deleted. *)
Definition downloading_no_job : Cluster := cluster_with downloading_object ∅ ∅.

(** A Downloading [m1] whose status has neither claim name nor condition. *)
Definition downloading_bare : Cluster :=
  cluster_with
    (object_of (spec_of source_hf "20Gi") (status_at "Downloading" "" "" []))
    ∅ {[ ("default", "model-download-m1") := job_with two_active ]}.

(** A Ready [m1] that comes from a Git repository. *)
Definition ready_git : Cluster :=
  cluster_with
    (object_of (spec_of source_git "20Gi")
       (status_at "Ready" "model-m1" "Download complete" [])) ∅ ∅.

(** A workload that asks for models in its inject annotation. *)
Definition app : Container := {| c_Name := "app"; c_VolumeMounts := []; c_Env := [] |}.

Definition pod_requesting (names : string) (cs : list Container) : Pod :=
  {| Labels := ∅; Annotations := {[ AnnotationInject := names ]};
     Volumes := []; Containers := cs |}.

Definition request_for (pod : Pod) : Request :=
  {| req_Name := "web"; req_Namespace := "default"; req_Object := inr pod |}.

Definition ready_object : ModelObject :=
  object_of (spec_of source_hf "20Gi")
    (status_at "Ready" "model-m1" "Download complete" []).
Definition failed_object : ModelObject :=
  object_of (spec_of source_hf "20Gi")
    (status_at "Failed" "model-m1" "Download failed: BackoffLimitExceeded" []).

Definition claim : PersistentVolumeClaim :=
  {| pvc_Name := "model-m1"; pvc_Namespace := "default"; pvc_Labels := ∅;
     pvc_AccessModes := ["ReadWriteOnce"]; pvc_StorageClassName := "standard";
     pvc_Storage := {| q_text := "20Gi" |}; pvc_Owner := Some "m1" |}.

(** [m1] Ready and Failed, with and without the owned resource. *)
Definition ready_no_claim : Cluster := cluster_with ready_object ∅ ∅.
Definition ready_with_claim : Cluster :=
  cluster_with ready_object {[ ("default", "model-m1") := claim ]} ∅.
Definition failed_no_job : Cluster := cluster_with failed_object ∅ ∅.
Definition failed_with_job : Cluster :=
  cluster_with failed_object ∅
    {[ ("default", "model-download-m1") := job_with failed_out ]}.

(** The fixtures of the webhook unit tests. *)
Definition test_model (src : ModelSource) (version : string) : Model :=
  {| m_Name := "test-model"; m_Namespace := "default"; m_Generation := 0;
     m_Spec := {| Source := src;
                  Storage := {| StorageClass := ""; Size := ""; AccessModes := [] |};
                  Version := version; CredentialsSecret := "";
                  NodeSelector := ∅ |};
     m_Status := empty_status |}.

Definition main : Container := {| c_Name := "main"; c_VolumeMounts := []; c_Env := [] |}.
Definition sidecar : Container :=
  {| c_Name := "sidecar"; c_VolumeMounts := []; c_Env := [] |}.

Definition test_pod (cs : list Container) : Pod :=
  {| Labels := ∅; Annotations := ∅; Volumes := []; Containers := cs |}.

Definition options (path : string) (ro : bool) (container : string) : injectionOptions :=
  {| MountPath := path; ReadOnly := ro; ContainerName := container; InjectEnv := true |}.

(** A workload that asks for nothing. *)
Definition plain_pod : Pod :=
  {| Labels := ∅; Annotations := ∅; Volumes := []; Containers := [app] |}.
Definition archived : Cluster :=
  cluster_with
    (object_of (spec_of source_hf "20Gi") (status_at "Archived" "model-m1" "" [])) ∅ ∅.

End Samples.

(** ** What a pass may do to the cluster *)
Module Effects.
Import API K8s Naming Resources Controller.

#[global] Instance Op_eq_dec : EqDecision Op.
Proof. solve_decision. Defined.

(** One call fails with the given text, every other call is served. *)
Definition fail_on (op : Op) (msg : string) : Op → option string :=
  λ o, if bool_decide (o = op) then Some msg else None.

Definition with_faults (c : Cluster) (f : Op → option string) : Cluster :=
  {| models := models c; pvcs := pvcs c; jobs := jobs c; clock := clock c;
     faults := f |}.

(** Every call but [op] is served. *)
Definition healthy_but (op : Op) (c : Cluster) : Prop :=
  ∀ o, o ≠ op → faults c o = None.

(** [c'] has every claim and Job of [c], unchanged; it has the same Models
    with the same generation and spec, and the same status too except for
    the Model [(ns, name)]. *)
Definition grows (ns name : string) (c c' : Cluster) : Prop :=
  pvcs c ⊆ pvcs c' ∧ jobs c ⊆ jobs c'
  ∧ clock c' = clock c ∧ faults c' = faults c
  ∧ ∀ k, match models c !! k with
         | None => models c' !! k = None
         | Some o =>
             ∃ o', models c' !! k = Some o'
                   ∧ obj_Generation o' = obj_Generation o
                   ∧ obj_Spec o' = obj_Spec o
                   ∧ (k ≠ (ns, name) → o' = o)
         end.

(** The status the Downloading pass stores when it fills in the claim name. *)
Definition backfilled (model : Model) (message : string) : ModelStatus :=
  {| st_Phase := st_Phase (m_Status model);
     st_PVCName := PVCName (m_Name model);
     st_Message := message;
     st_Progress := st_Progress (m_Status model);
     st_Conditions := st_Conditions (m_Status model);
     st_ObservedGeneration := m_Generation model |}.

(** How a sub-reconciler leaves the status of its Model: untouched, or
    written by [updateStatusWithProgress] (with the old progress, or with
    100 on the way from Downloading to Ready), or with the claim name
    filled in; nothing is written when the pass does not end normally. *)
Definition status_effect (c c' : Cluster) (model : Model) (out : Outcome) : Prop :=
  match out with
  | Requeue d =>
      (models c' = models c ∧ d = requeue_for (st_Phase (m_Status model))
       ∧ (st_Phase (m_Status model) = ModelPhaseDownloading
          ∨ st_Phase (m_Status model) = ModelPhaseReady
          ∨ st_Phase (m_Status model) = ModelPhaseFailed))
      ∨ (∃ phase message progress,
           stored_status c' (m_Namespace model) (m_Name model)
           = Some (next_status (clock c) model phase message progress)
           ∧ d = requeue_for phase ∧ valid_phase phase
           ∧ (progress = st_Progress (m_Status model)
              ∨ (progress = 100%Z ∧ phase = ModelPhaseReady
                 ∧ st_Phase (m_Status model) = ModelPhaseDownloading)))
      ∨ (∃ message,
           stored_status c' (m_Namespace model) (m_Name model)
           = Some (backfilled model message)
           ∧ d = requeueDownloading
           ∧ st_Phase (m_Status model) = ModelPhaseDownloading)
  | _ => models c' = models c
  end.

End Effects.

(** ** More sample clusters *)
Module Scenarios.
Import API K8s Naming Resources Controller Webhook Effects.

(** The new Model of [Samples.fresh_hf] in a namespace out of quota. *)
Definition no_quota_for_claims : Cluster :=
  with_faults Samples.fresh_hf (fail_on OpCreatePVC "exceeded quota").
Definition no_quota_for_jobs : Cluster :=
  with_faults Samples.fresh_hf (fail_on OpCreateJob "exceeded quota").

(** A Ready Model whose claim is gone while its finished Job is still there. *)
Definition ready_claim_gone_job_kept : Cluster :=
  Samples.cluster_with Samples.ready_object ∅
    {[ ("default", "model-download-m1") := Samples.job_with Samples.succeeded_once ]}.

(** What the first pass leaves of [Samples.fresh_hf], and the same after
    the Job has reported a success. *)
Definition after_first_pass : Cluster := (Reconcile Samples.fresh_hf "default" "m1").1.
Definition job_succeeded : Cluster :=
  with_jobs after_first_pass
    {[ ("default", "model-download-m1") := Samples.job_with Samples.succeeded_once ]}.

(** A workload with two containers that selects the second one. *)
Definition pod_selecting_sidecar : Pod :=
  {| Labels := ∅;
     Annotations := <[AnnotationInject := "m1"]> {[ AnnotationContainer := "sidecar" ]};
     Volumes := []; Containers := [Samples.main; Samples.sidecar] |}.

(** A workload that asks for [m1] without environment variables. *)
Definition pod_without_env : Pod :=
  {| Labels := ∅;
     Annotations := <[AnnotationInject := "m1"]> {[ AnnotationInjectEnv := "false" ]};
     Volumes := [];
     Containers := [ {| c_Name := "app"; c_VolumeMounts := [];
                        c_Env := [ {| env_Name := "HOME"; env_Value := "/root" |} ] |} ] |}.

End Scenarios.

(** ** What an injection may do to a workload *)
Module Injection.
Import API K8s Naming Webhook.

(** The same container with mounts and variables appended, if any. *)
Definition extends_container (c c' : Container) : Prop :=
  c_Name c' = c_Name c
  ∧ c_VolumeMounts c `prefix_of` c_VolumeMounts c'
  ∧ c_Env c `prefix_of` c_Env c'.

(** The same workload with volumes appended and containers extended. *)
Definition extends_pod (pod pod' : Pod) : Prop :=
  Labels pod' = Labels pod
  ∧ Annotations pod' = Annotations pod
  ∧ Volumes pod `prefix_of` Volumes pod'
  ∧ Forall2 extends_container (Containers pod) (Containers pod').

(** The container the options select: the named one, else the first. *)
Definition target_index (cs : list Container) (opts : injectionOptions) : nat :=
  if bool_decide (ContainerName opts ≠ "")
  then default 0%nat (find_container cs (ContainerName opts))
  else 0%nat.

(** The volume the injector adds for a model. *)
Definition model_volume (name : string) : Volume :=
  {| v_Name := VolumeName name;
     v_PersistentVolumeClaim :=
       Some {| ClaimName := PVCName name; pvs_ReadOnly := true |} |}.

(** The workload has a volume, and the selected container a mount, with the
    volume name of the model. *)
Definition wired (pod : Pod) (opts : injectionOptions) (name : string) : Prop :=
  (∃ v, v ∈ Volumes pod ∧ v_Name v = VolumeName name)
  ∧ ∃ c m, Containers pod !! target_index (Containers pod) opts = Some c
           ∧ m ∈ c_VolumeMounts c ∧ vm_Name m = VolumeName name.

End Injection.

(** ** The download scripts of job.go that need no Modelfile *)
Module Scripts.
Import API K8s.

Definition nl : string := String (ascii_of_nat 10) EmptyString.
Definition dq : string := String GoFmt.dquote EmptyString.

(** The shell script of [buildS3Container]. *)
Definition s3Script (s3 : S3Source) : string :=
  let endpointArg :=
    if bool_decide (s3_Endpoint s3 ≠ "") then "--endpoint-url " +:+ s3_Endpoint s3
    else "" in
  let regionArg :=
    if bool_decide (s3_Region s3 ≠ "") then "--region " +:+ s3_Region s3 else "" in
  "aws s3 cp " +:+ endpointArg +:+ " " +:+ regionArg +:+ " s3://"
  +:+ s3_Bucket s3 +:+ "/" +:+ s3_Key s3 +:+ " /models/ --recursive && \" +:+ nl
  +:+ "echo " +:+ dq +:+ "Download complete" +:+ dq +:+ " && \" +:+ nl
  +:+ "ls -la /models".

(** The shell script of [buildURLContainer]. *)
Definition urlScript (url : URLSource) : string :=
  "curl -L -o /models/model " +:+ dq +:+ url_URL url +:+ dq +:+ " && \" +:+ nl
  +:+ "echo " +:+ dq +:+ "Download complete" +:+ dq +:+ " && \" +:+ nl
  +:+ "ls -la /models".

End Scripts.

(** ** Kubernetes object names *)
Module Names.

Fixpoint all_bytes (p : ascii → bool) (s : string) : bool :=
  match s with
  | EmptyString => true
  | String c s' => p c && all_bytes p s'
  end.

(** The bytes of a DNS-1123 subdomain, the form of an object name:
    lower-case letters, digits, the dash and the dot. *)
Definition dns_byte (c : ascii) : bool :=
  let n := nat_of_ascii c in
  bool_decide ((97 ≤ n ∧ n ≤ 122) ∨ (48 ≤ n ∧ n ≤ 57) ∨ n = 45 ∨ n = 46)%nat.

Definition dns_name (s : string) : Prop := all_bytes dns_byte s = true.

(** Back from a byte of the environment prefix to the byte of the name. *)
Definition name_byte (c : ascii) : ascii :=
  let n := nat_of_ascii c in
  if decide (n = 95) then "-"%char
  else if decide (65 ≤ n ∧ n ≤ 90)%nat then ascii_of_nat (n + 32)
  else c.

End Names.

(** * Properties *)

(** ** The unit tests of the repository, replayed on the embedding *)
Section ReplayedTests.
Import API K8s Naming GoStrings Resources Webhook.

Example TestEnvVarPrefix :
  EnvVarPrefix "llama" = "MODEL_LLAMA"
  ∧ EnvVarPrefix "llama-3-8b" = "MODEL_LLAMA_3_8B"
  ∧ EnvVarPrefix "gpt-4-turbo" = "MODEL_GPT_4_TURBO"
  ∧ EnvVarPrefix "Mistral-7B" = "MODEL_MISTRAL_7B".
Proof. repeat split. Qed.

Example TestParseOptions_all :
  parseOptions
    (<[AnnotationMountPath := "/data/models"]>
     (<[AnnotationReadOnly := "false"]>
      (<[AnnotationContainer := "inference"]>
       (<[AnnotationInjectEnv := "true"]> ∅))))
  = {| MountPath := "/data/models"; ReadOnly := false;
       ContainerName := "inference"; InjectEnv := true |}.
Proof. by vm_compute. Qed.

Example TestInjectVolumeMount_CustomPath :
  sum_map id Containers
    (injectVolumeMount (Samples.test_pod [Samples.main])
      (Samples.test_model Samples.source_none "") (Samples.options "/custom/path" false ""))
  = inr [ {| c_Name := "main";
             c_VolumeMounts := [ {| vm_Name := "model-test-model";
                                    vm_MountPath := "/custom/path/test-model";
                                    vm_ReadOnly := false |} ];
             c_Env := [] |} ].
Proof. by vm_compute. Qed.

Example TestInjectVolumeMount_TargetContainer :
  sum_map id Containers
    (injectVolumeMount (Samples.test_pod [Samples.main; Samples.sidecar])
      (Samples.test_model Samples.source_none "") (Samples.options "" true "sidecar"))
  = inr [ Samples.main;
          {| c_Name := "sidecar";
             c_VolumeMounts := [ {| vm_Name := "model-test-model";
                                    vm_MountPath := "/models/test-model";
                                    vm_ReadOnly := true |} ];
             c_Env := [] |} ].
Proof. by vm_compute. Qed.

Example TestInjectVolumeMount_ContainerNotFound :
  injectVolumeMount (Samples.test_pod [Samples.main])
    (Samples.test_model Samples.source_none "") (Samples.options "" false "nonexistent")
  = inl (Errorf ("container " +:+ GoFmt.fmt_q "nonexistent" +:+ " not found")).
Proof. by vm_compute. Qed.

Example TestInjectVolumeMount_NoContainers :
  injectVolumeMount (Samples.test_pod [])
    (Samples.test_model Samples.source_none "") (Samples.options "" false "")
  = inl (Errorf "pod has no containers").
Proof. by vm_compute. Qed.

Example TestInjectEnvVars :
  sum_map id Containers
    (injectEnvVars (Samples.test_pod [Samples.main])
      (Samples.test_model
         {| HuggingFace := Some {| hf_RepoID := "org/model-name"; hf_Revision := "";
                                   hf_Include := []; hf_Exclude := [] |};
            URL := None; S3 := None; Git := None |} "1.0")
      (Samples.options "" false ""))
  = inr [ {| c_Name := "main"; c_VolumeMounts := [];
             c_Env :=
               [ {| env_Name := "MODEL_TEST_MODEL_NAME"; env_Value := "test-model" |};
                 {| env_Name := "MODEL_TEST_MODEL_MOUNT_PATH";
                    env_Value := "/models/test-model" |};
                 {| env_Name := "MODEL_TEST_MODEL_VERSION"; env_Value := "1.0" |};
                 {| env_Name := "MODEL_TEST_MODEL_SOURCE_TYPE";
                    env_Value := "huggingface" |};
                 {| env_Name := "MODEL_TEST_MODEL_REPO_ID";
                    env_Value := "org/model-name" |} ] |} ].
Proof. by vm_compute. Qed.

Example TestBuildDownloadJob_NoSource :
  BuildDownloadJob (Samples.test_model Samples.source_none "")
  = inl (Errorf "no source specified in model test-model").
Proof. by vm_compute. Qed.

(** Sizes: the ones of the tests and samples are quantities; an upper-case
    [K] alone is not a suffix, and the empty text is refused. *)
Example quantities :
  is_Some (ParseQuantity "1Gi") ∧ is_Some (ParseQuantity "20Gi")
  ∧ is_Some (ParseQuantity "500m") ∧ is_Some (ParseQuantity "20k")
  ∧ ParseQuantity "20K" = None ∧ ParseQuantity "" = None
  ∧ ParseQuantity "20GB" = None.
Proof. repeat split; first [by vm_compute | vm_compute; eauto]. Qed.

(** A base directory with a trailing slash is joined with one slash. *)
Example mount_path_trailing_slash :
  mount_path_of_mount (Samples.test_model Samples.source_none "")
    (Samples.options "/data/" true "")
  = "/data/test-model".
Proof. by vm_compute. Qed.

End ReplayedTests.

(** ** Naming *)
Section NamingFacts.
Import GoStrings Naming.

Lemma replace_dash (s : string) :
  replace_scan "-" "_" s 0 = map_bytes dash_to_underscore s.
Proof.
  induction s as [|c s IH]; [done|].
  cbn [replace_scan map_bytes String.prefix String.length].
  unfold dash_to_underscore at 1.
  destruct (ascii_dec "-" c) as [Heq|Hne]; case_decide; try congruence.
  destruct s; cbn in *; by rewrite <- ?IH.
Qed.

(** C9: the derived names are the fixed prefixes followed by the model
    name, the environment prefix is [MODEL_] followed by the upper-cased
    name with every dash turned into an underscore, and the two values the
    specification quotes come out as quoted. *)
Theorem naming_contract (n : string) :
  PVCName n = "model-" +:+ n
  ∧ JobName n = "model-download-" +:+ n
  ∧ VolumeName n = "model-" +:+ n
  ∧ EnvVarPrefix n = env_prefix_contract n
  ∧ DefaultMountPath n = "/models/" +:+ n
  ∧ PVCName "llama-3-8b" = "model-llama-3-8b"
  ∧ EnvVarPrefix "Mistral-7B" = "MODEL_MISTRAL_7B".
Proof.
  repeat split; try reflexivity.
  unfold EnvVarPrefix, env_prefix_contract, ToUpper, ReplaceAll.
  by rewrite replace_dash.
Qed.

End NamingFacts.

(** ** The client calls *)
Section ClientFacts.
Import API K8s.

Lemma GetModel_stored c ns name o :
  healthy c → models c !! (ns, name) = Some o →
  GetModel c ns name = inr (model_of ns name o).
Proof. intros Hh Ho. unfold GetModel. by rewrite Hh, Ho. Qed.

Lemma GetModel_inv c ns name model :
  GetModel c ns name = inr model →
  ∃ o, models c !! (ns, name) = Some o ∧ model = model_of ns name o.
Proof.
  unfold GetModel. destruct (faults c OpGetModel); [done|].
  destruct (models c !! (ns, name)) as [o|]; [|done].
  intros [= <-]. by exists o.
Qed.

Lemma GetModel_error c ns name err :
  GetModel c ns name = inl err →
  err_NotFound err = true → models c !! (ns, name) = None.
Proof.
  unfold GetModel. destruct (faults c OpGetModel); [by intros [= <-]|].
  by destruct (models c !! (ns, name)).
Qed.

Lemma StatusUpdate_inv c m c' :
  StatusUpdate c m = inr c' →
  stored_status c' (m_Namespace m) (m_Name m) = Some (m_Status m)
  ∧ pvcs c' = pvcs c ∧ jobs c' = jobs c
  ∧ faults c' = faults c ∧ clock c' = clock c.
Proof.
  unfold StatusUpdate. destruct (faults c OpUpdateStatus); [done|].
  destruct (models c !! (m_Namespace m, m_Name m)) as [o|]; [|done].
  intros [= <-]. unfold stored_status. cbn. by rewrite lookup_insert_eq.
Qed.

Lemma StatusUpdate_ok c m :
  faults c OpUpdateStatus = None →
  is_Some (models c !! (m_Namespace m, m_Name m)) →
  ∃ c', StatusUpdate c m = inr c'.
Proof.
  intros Hf [o Ho]. unfold StatusUpdate. rewrite Hf, Ho. eauto.
Qed.

End ClientFacts.

(** ** The reconciler *)
Section ControllerFacts.
Import API K8s Naming Resources Controller.

(** A status write either fails and changes nothing, or stores the new
    status and leaves claims and jobs alone. *)
Lemma updateStatusWithProgress_inv c model phase message progress c' out :
  updateStatusWithProgress c model phase message progress = (c', out) →
  (c' = c ∧ ∃ err, out = Failure err)
  ∨ (out = Requeue (requeue_for phase)
     ∧ stored_status c' (m_Namespace model) (m_Name model)
       = Some (next_status (clock c) model phase message progress)
     ∧ pvcs c' = pvcs c ∧ jobs c' = jobs c).
Proof.
  unfold updateStatusWithProgress.
  destruct (StatusUpdate _ _) as [err|c1] eqn:Hup; intros [= <- <-].
  - left. eauto.
  - right. apply StatusUpdate_inv in Hup as (Hst & Hp & Hj & _). auto.
Qed.

Lemma updateStatusWithProgress_ok c model phase message progress :
  faults c OpUpdateStatus = None →
  is_Some (models c !! (m_Namespace model, m_Name model)) →
  ∃ c', updateStatusWithProgress c model phase message progress
        = (c', Requeue (requeue_for phase))
     ∧ stored_status c' (m_Namespace model) (m_Name model)
       = Some (next_status (clock c) model phase message progress)
     ∧ pvcs c' = pvcs c ∧ jobs c' = jobs c.
Proof.
  intros Hf Hm.
  destruct (StatusUpdate_ok c
    (with_status model (next_status (clock c) model phase message progress)) Hf Hm)
    as [c' Hup].
  exists c'. unfold updateStatusWithProgress. rewrite Hup.
  apply StatusUpdate_inv in Hup as (Hst & Hp & Hj & _). auto.
Qed.

Lemma updateStatus_ok c model phase message :
  faults c OpUpdateStatus = None →
  is_Some (models c !! (m_Namespace model, m_Name model)) →
  ∃ c', updateStatus c model phase message = (c', Requeue (requeue_for phase))
     ∧ stored_status c' (m_Namespace model) (m_Name model)
       = Some (next_status (clock c) model phase message (st_Progress (m_Status model)))
     ∧ pvcs c' = pvcs c ∧ jobs c' = jobs c.
Proof. apply updateStatusWithProgress_ok. Qed.

Lemma updateStatus_inv c model phase message c' out :
  updateStatus c model phase message = (c', out) →
  (c' = c ∧ ∃ err, out = Failure err)
  ∨ (out = Requeue (requeue_for phase)
     ∧ stored_status c' (m_Namespace model) (m_Name model)
       = Some (next_status (clock c) model phase message (st_Progress (m_Status model)))
     ∧ pvcs c' = pvcs c ∧ jobs c' = jobs c).
Proof. apply updateStatusWithProgress_inv. Qed.

(** The dispatch of [Reconcile] on the stored phase. *)
Lemma Reconcile_found c ns name o :
  healthy c → models c !! (ns, name) = Some o →
  Reconcile c ns name =
    let model := model_of ns name o in
    let phase := st_Phase (obj_Status o) in
    let phase := if bool_decide (phase = "") then ModelPhasePending else phase in
    if bool_decide (phase = ModelPhasePending) then reconcilePending c model
    else if bool_decide (phase = ModelPhaseDownloading) then reconcileDownloading c model
    else if bool_decide (phase = ModelPhaseReady) then reconcileReady c model
    else if bool_decide (phase = ModelPhaseFailed) then reconcileFailed c model
    else updateStatus c model ModelPhasePending "Unknown phase, resetting".
Proof.
  intros Hh Ho. unfold Reconcile. by rewrite (GetModel_stored _ _ _ _ Hh Ho).
Qed.

Lemma Reconcile_pending c ns name o :
  healthy c → models c !! (ns, name) = Some o →
  st_Phase (obj_Status o) = "" ∨ st_Phase (obj_Status o) = ModelPhasePending →
  Reconcile c ns name = reconcilePending c (model_of ns name o).
Proof.
  intros Hh Ho Hph. rewrite (Reconcile_found _ _ _ _ Hh Ho).
  by destruct Hph as [-> | ->].
Qed.

Lemma Reconcile_downloading c ns name o :
  healthy c → models c !! (ns, name) = Some o →
  st_Phase (obj_Status o) = ModelPhaseDownloading →
  Reconcile c ns name = reconcileDownloading c (model_of ns name o).
Proof. intros Hh Ho Hph. rewrite (Reconcile_found _ _ _ _ Hh Ho). by rewrite Hph. Qed.

Lemma Reconcile_ready c ns name o :
  healthy c → models c !! (ns, name) = Some o →
  st_Phase (obj_Status o) = ModelPhaseReady →
  Reconcile c ns name = reconcileReady c (model_of ns name o).
Proof. intros Hh Ho Hph. rewrite (Reconcile_found _ _ _ _ Hh Ho). by rewrite Hph. Qed.

Lemma Reconcile_failed c ns name o :
  healthy c → models c !! (ns, name) = Some o →
  st_Phase (obj_Status o) = ModelPhaseFailed →
  Reconcile c ns name = reconcileFailed c (model_of ns name o).
Proof. intros Hh Ho Hph. rewrite (Reconcile_found _ _ _ _ Hh Ho). by rewrite Hph. Qed.

Lemma Reconcile_unknown c ns name o :
  healthy c → models c !! (ns, name) = Some o →
  st_Phase (obj_Status o) ≠ "" → ¬ valid_phase (st_Phase (obj_Status o)) →
  Reconcile c ns name =
    updateStatus c (model_of ns name o) ModelPhasePending "Unknown phase, resetting".
Proof.
  intros Hh Ho Hne Hnv. rewrite (Reconcile_found _ _ _ _ Hh Ho). cbn zeta.
  rewrite (bool_decide_eq_false_2 _ Hne).
  unfold valid_phase in Hnv.
  rewrite !bool_decide_eq_false_2; [done|tauto..].
Qed.

Lemma GetPVC_healthy c ns name :
  healthy c →
  GetPVC c ns name =
    match pvcs c !! (ns, name) with
    | Some p => inr p
    | None => inl (NewNotFound "persistentvolumeclaims" name)
    end.
Proof. intros Hh. unfold GetPVC. by rewrite Hh. Qed.

Lemma GetJob_healthy c ns name :
  healthy c →
  GetJob c ns name =
    match jobs c !! (ns, name) with
    | Some j => inr j
    | None => inl (NewNotFound "jobs.batch" name)
    end.
Proof. intros Hh. unfold GetJob. by rewrite Hh. Qed.

(** C6: a Ready Model whose claim is gone and a Failed Model whose Job is
    gone are set back to Pending by the next pass; while the owned resource
    is still there the phase stays Ready, respectively Failed. *)
Theorem recovery_by_deletion c ns name o :
  healthy c → models c !! (ns, name) = Some o →
  (st_Phase (obj_Status o) = ModelPhaseReady →
     (pvcs c !! (ns, PVCName name) = None →
        stored_phase (Reconcile c ns name).1 ns name = Some ModelPhasePending)
     ∧ (is_Some (pvcs c !! (ns, PVCName name)) →
        stored_phase (Reconcile c ns name).1 ns name = Some ModelPhaseReady))
  ∧ (st_Phase (obj_Status o) = ModelPhaseFailed →
     (jobs c !! (ns, JobName name) = None →
        stored_phase (Reconcile c ns name).1 ns name = Some ModelPhasePending)
     ∧ (is_Some (jobs c !! (ns, JobName name)) →
        stored_phase (Reconcile c ns name).1 ns name = Some ModelPhaseFailed)).
Proof.
  intros Hh Ho.
  assert (Hm : is_Some (models c !! (m_Namespace (model_of ns name o),
                                     m_Name (model_of ns name o)))) by (cbn; eauto).
  split; intros Hph.
  - rewrite (Reconcile_ready _ _ _ _ Hh Ho Hph). unfold reconcileReady. rewrite (GetPVC_healthy _ _ _ Hh). cbn [m_Name m_Namespace model_of].
    split.
    + intros ->. cbn [err_NotFound NewNotFound].
      destruct (updateStatus_ok c (model_of ns name o) ModelPhasePending
                  "PVC was deleted, recreating" (Hh _) Hm) as (c' & -> & Hst & _).
      cbn [m_Name m_Namespace model_of] in Hst.
      unfold stored_phase. cbn [fst]. by rewrite Hst.
    + intros [p ->]. unfold stored_phase, stored_status. cbn [fst].
      rewrite Ho. cbn. by rewrite Hph.
  - rewrite (Reconcile_failed _ _ _ _ Hh Ho Hph).
    unfold reconcileFailed. rewrite (GetJob_healthy _ _ _ Hh). cbn [m_Name m_Namespace model_of].
    split.
    + intros ->. cbn [err_NotFound NewNotFound].
      destruct (updateStatus_ok c (model_of ns name o) ModelPhasePending
                  "Retrying download" (Hh _) Hm) as (c' & -> & Hst & _).
      cbn [m_Name m_Namespace model_of] in Hst.
      unfold stored_phase. cbn [fst]. by rewrite Hst.
    + intros [p ->]. unfold stored_phase, stored_status. cbn [fst].
      rewrite Ho. cbn. by rewrite Hph.
Qed.

(** A status write that went through stored the phase it was given. *)
Lemma updateStatus_phase c model phase message c' d st :
  updateStatus c model phase message = (c', Requeue d) →
  stored_status c' (m_Namespace model) (m_Name model) = Some st →
  st_Phase st = phase.
Proof.
  intros H Hst. apply updateStatus_inv in H as [[_ [e ?]] | (_ & Hst' & _)]; [done|].
  rewrite Hst' in Hst. by injection Hst as <-.
Qed.

Lemma updateStatusWithProgress_phase c model phase message progress c' d st :
  updateStatusWithProgress c model phase message progress = (c', Requeue d) →
  stored_status c' (m_Namespace model) (m_Name model) = Some st →
  st_Phase st = phase.
Proof.
  intros H Hst.
  apply updateStatusWithProgress_inv in H as [[_ [e ?]] | (_ & Hst' & _)]; [done|].
  rewrite Hst' in Hst. by injection Hst as <-.
Qed.

Lemma valid_of_eq p :
  p = ModelPhasePending → valid_phase p.
Proof. intros ->. by left. Qed.

Ltac split_pass :=
  repeat match goal with
         | |- context [match ?x with _ => _ end] => destruct x eqn:?
         end.

Ltac by_written_phase :=
  match goal with
  | H : updateStatus _ _ ?p _ = (_, Requeue _), Hst : stored_status _ _ _ = Some _ |- _ =>
      rewrite (updateStatus_phase _ _ _ _ _ _ _ H Hst); unfold valid_phase; tauto
  | H : updateStatusWithProgress _ _ ?p _ _ = (_, Requeue _),
    Hst : stored_status _ _ _ = Some _ |- _ =>
      rewrite (updateStatusWithProgress_phase _ _ _ _ _ _ _ _ H Hst);
      unfold valid_phase; tauto
  end.

Lemma reconcilePending_phase c model c' d st :
  reconcilePending c model = (c', Requeue d) →
  stored_status c' (m_Namespace model) (m_Name model) = Some st →
  valid_phase (st_Phase st).
Proof.
  unfold reconcilePending, pending_job. split_pass; intros H Hst;
    try discriminate H; by_written_phase.
Qed.

Lemma reconcileDownloading_phase c model c' d st :
  st_Phase (m_Status model) = ModelPhaseDownloading →
  stored_status c (m_Namespace model) (m_Name model) = Some (m_Status model) →
  reconcileDownloading c model = (c', Requeue d) →
  stored_status c' (m_Namespace model) (m_Name model) = Some st →
  valid_phase (st_Phase st).
Proof.
  intros Hph Hold. unfold reconcileDownloading, still_downloading.
  split_pass; intros H Hst; try discriminate H; try by_written_phase.
  - injection H as <- <-.
    match goal with Hup : StatusUpdate _ _ = inr _ |- _ =>
      apply StatusUpdate_inv in Hup as (Hst' & _) end.
    cbn [m_Name m_Namespace m_Status with_status] in Hst'.
    rewrite Hst' in Hst. injection Hst as <-. cbn. rewrite Hph.
    unfold valid_phase; tauto.
  - injection H as <- <-. rewrite Hold in Hst. injection Hst as <-.
    rewrite Hph. unfold valid_phase; tauto.
Qed.

Lemma reconcileReady_phase c model c' d st :
  st_Phase (m_Status model) = ModelPhaseReady →
  stored_status c (m_Namespace model) (m_Name model) = Some (m_Status model) →
  reconcileReady c model = (c', Requeue d) →
  stored_status c' (m_Namespace model) (m_Name model) = Some st →
  valid_phase (st_Phase st).
Proof.
  intros Hph Hold. unfold reconcileReady.
  split_pass; intros H Hst; try discriminate H; try by_written_phase.
  injection H as <- <-. rewrite Hold in Hst. injection Hst as <-.
  rewrite Hph. unfold valid_phase; tauto.
Qed.

Lemma reconcileFailed_phase c model c' d st :
  st_Phase (m_Status model) = ModelPhaseFailed →
  stored_status c (m_Namespace model) (m_Name model) = Some (m_Status model) →
  reconcileFailed c model = (c', Requeue d) →
  stored_status c' (m_Namespace model) (m_Name model) = Some st →
  valid_phase (st_Phase st).
Proof.
  intros Hph Hold. unfold reconcileFailed.
  split_pass; intros H Hst; try discriminate H; try by_written_phase.
  injection H as <- <-. rewrite Hold in Hst. injection Hst as <-.
  rewrite Hph. unfold valid_phase; tauto.
Qed.

(** C10: a stored phase that is neither empty nor one of the four values
    is reset to Pending, with a message that says so; and whatever the
    phase was, after a pass that ends without error the stored phase is one
    of the four values. *)
Theorem phase_stays_in_enum c ns name :
  (∀ o, healthy c → models c !! (ns, name) = Some o →
        st_Phase (obj_Status o) ≠ "" → ¬ valid_phase (st_Phase (obj_Status o)) →
        ∃ c' st, Reconcile c ns name = (c', Requeue requeuePending)
                 ∧ stored_status c' ns name = Some st
                 ∧ st_Phase st = ModelPhasePending
                 ∧ st_Message st = "Unknown phase, resetting")
  ∧ (∀ c' d st, Reconcile c ns name = (c', Requeue d) →
                stored_status c' ns name = Some st →
                valid_phase (st_Phase st)).
Proof.
  split.
  - intros o Hh Ho Hne Hnv. rewrite (Reconcile_unknown _ _ _ _ Hh Ho Hne Hnv).
    destruct (updateStatus_ok c (model_of ns name o) ModelPhasePending
                "Unknown phase, resetting" (Hh _)) as (c' & -> & Hst & _);
      [cbn; eauto|].
    eexists c', _. split; [done|]. split; [exact Hst|]. done.
  - intros c' d st. unfold Reconcile.
    destruct (GetModel c ns name) as [err|model] eqn:Hget.
    + destruct (err_NotFound err) eqn:Hnf; [|done].
      intros [= <- _] Hst. apply (GetModel_error _ _ _ _ Hget) in Hnf.
      unfold stored_status in Hst. by rewrite Hnf in Hst.
    + apply GetModel_inv in Hget as (o & Ho & ->).
      assert (Hold : stored_status c (m_Namespace (model_of ns name o))
                       (m_Name (model_of ns name o))
                     = Some (m_Status (model_of ns name o))).
      { unfold stored_status. cbn. by rewrite Ho. }
      cbn zeta. repeat case_bool_decide; intros HR Hst;
        first
          [ by apply (reconcilePending_phase c (model_of ns name o) c' d st)
          | by apply (reconcileDownloading_phase c (model_of ns name o) c' d st)
          | by apply (reconcileReady_phase c (model_of ns name o) c' d st)
          | by apply (reconcileFailed_phase c (model_of ns name o) c' d st)
          | by apply valid_of_eq,
              (updateStatus_phase c (model_of ns name o) _ _ c' d st HR) ].
Qed.

(** *** The builders *)

Lemma BuildDownloadJob_error_iff model :
  (∃ err, BuildDownloadJob model = inl err) ↔ populated (Source (m_Spec model)) = 0%nat.
Proof.
  unfold BuildDownloadJob, download_container, populated.
  destruct (HuggingFace _), (S3 _), (URL _), (Git _); cbn;
    split; try done; try (intros [? [=]]); eauto.
Qed.

(** With several variants populated the first one wins, in the order
    HuggingFace, S3, URL, Git. *)
Lemma first_variant_wins model :
  download_container model =
    match HuggingFace (Source (m_Spec model)), S3 (Source (m_Spec model)),
          URL (Source (m_Spec model)), Git (Source (m_Spec model)) with
    | Some _, _, _, _ => inr {| jcn_Name := "downloader"; jcn_Image := huggingFaceImage |}
    | None, Some _, _, _ => inr {| jcn_Name := "downloader"; jcn_Image := s3Image |}
    | None, None, Some _, _ => inr {| jcn_Name := "downloader"; jcn_Image := urlImage |}
    | None, None, None, Some _ => inr {| jcn_Name := "downloader"; jcn_Image := gitImage |}
    | None, None, None, None =>
        inl (Errorf ("no source specified in model " +:+ m_Name model))
    end.
Proof.
  unfold download_container. cbn zeta.
  destruct (HuggingFace (Source (m_Spec model))), (S3 (Source (m_Spec model))),
    (URL (Source (m_Spec model))), (Git (Source (m_Spec model))); reflexivity.
Qed.

Lemma BuildDownloadJob_built model :
  populated (Source (m_Spec model)) ≠ 0%nat →
  ∃ job, BuildDownloadJob model = inr job
         ∧ job_Name job = JobName (m_Name model)
         ∧ job_Namespace job = m_Namespace model.
Proof.
  unfold BuildDownloadJob, download_container, populated.
  destruct (HuggingFace _), (S3 _), (URL _), (Git _); cbn; try done; eauto.
Qed.

Lemma BuildPVC_built model q :
  ParseQuantity (Size (Storage (m_Spec model))) = Some q →
  ∃ pvc, BuildPVC model = Some pvc
         ∧ pvc_Name pvc = PVCName (m_Name model)
         ∧ pvc_Namespace pvc = m_Namespace model.
Proof. intros Hq. unfold BuildPVC. rewrite Hq. eauto. Qed.

(** *** The Pending phase *)

Lemma OwnJob_healthy c model job :
  healthy c →
  ∃ job', OwnJob c model job = inr job'
          ∧ job_Name job' = job_Name job ∧ job_Namespace job' = job_Namespace job.
Proof. intros Hh. unfold OwnJob. rewrite Hh. eauto. Qed.

Lemma OwnPVC_healthy c model pvc :
  healthy c →
  ∃ pvc', OwnPVC c model pvc = inr pvc'
          ∧ pvc_Name pvc' = pvc_Name pvc ∧ pvc_Namespace pvc' = pvc_Namespace pvc.
Proof. intros Hh. unfold OwnPVC. rewrite Hh. eauto. Qed.

(** With a source, the Job is there after the second half of the pass and
    the Model is Downloading. *)
Lemma pending_job_with_source c model :
  healthy c →
  is_Some (models c !! (m_Namespace model, m_Name model)) →
  populated (Source (m_Spec model)) ≠ 0%nat →
  ∃ c', pending_job c model = (c', Requeue requeueDownloading)
        ∧ stored_status c' (m_Namespace model) (m_Name model)
          = Some (next_status (clock c) model ModelPhaseDownloading "Download started"
                    (st_Progress (m_Status model)))
        ∧ pvcs c' = pvcs c
        ∧ is_Some (jobs c' !! (m_Namespace model, JobName (m_Name model))).
Proof.
  intros Hh Hm Hsrc. unfold pending_job.
  destruct (BuildDownloadJob_built model Hsrc) as (job & -> & Hn & Hns).
  destruct (OwnJob_healthy c model job Hh) as (job' & -> & Hn' & Hns').
  rewrite (GetJob_healthy _ _ _ Hh), Hn', Hns', Hn, Hns.
  destruct (jobs c !! (m_Namespace model, JobName (m_Name model))) as [j|] eqn:Hj.
  - destruct (updateStatus_ok c model ModelPhaseDownloading "Download started"
                (Hh _) Hm) as (c' & -> & Hst & Hp & Hjobs).
    exists c'. rewrite Hjobs, Hj. eauto.
  - cbn [err_NotFound NewNotFound]. unfold CreateJob.
    rewrite Hh, Hn', Hns', Hn, Hns, Hj.
    set (c1 := with_jobs c _).
    destruct (updateStatus_ok c1 model ModelPhaseDownloading "Download started"
                (Hh _) Hm) as (c' & -> & Hst & Hp & Hjobs).
    exists c'. rewrite Hjobs. split; [done|]. split; [exact Hst|]. split; [done|].
    subst c1. cbn. rewrite lookup_insert_eq. eauto.
Qed.

(** Without a source no Job can be built: the Model fails and no Job is
    created. *)
Lemma pending_job_no_source c model :
  faults c OpUpdateStatus = None →
  is_Some (models c !! (m_Namespace model, m_Name model)) →
  populated (Source (m_Spec model)) = 0%nat →
  ∃ c' st, pending_job c model = (c', Requeue requeueFailed)
        ∧ stored_status c' (m_Namespace model) (m_Name model) = Some st
        ∧ st_Phase st = ModelPhaseFailed
        ∧ st_Message st = "Failed to build download Job: no source specified in model "
                          +:+ m_Name model
        ∧ pvcs c' = pvcs c ∧ jobs c' = jobs c.
Proof.
  intros Hf Hm Hsrc. unfold pending_job.
  apply BuildDownloadJob_error_iff in Hsrc as Herr.
  unfold BuildDownloadJob, download_container in *. unfold populated in Hsrc.
  destruct (HuggingFace _), (S3 _), (URL _), (Git _); try done.
  destruct (updateStatus_ok c model ModelPhaseFailed
              ("Failed to build download Job: "
               +:+ err_Msg (Errorf ("no source specified in model " +:+ m_Name model)))
              Hf Hm) as (c' & -> & Hst & Hp & Hj).
  eexists c', _. split; [done|]. split; [exact Hst|]. done.
Qed.

(** The first half of the pass: the claim is there afterwards, and the
    second half runs on a cluster that differs at most by that claim. *)
Lemma reconcilePending_claim c model q :
  healthy c →
  ParseQuantity (Size (Storage (m_Spec model))) = Some q →
  ∃ c1, reconcilePending c model = pending_job c1 model
        ∧ healthy c1 ∧ models c1 = models c ∧ jobs c1 = jobs c ∧ clock c1 = clock c
        ∧ is_Some (pvcs c1 !! (m_Namespace model, PVCName (m_Name model))).
Proof.
  intros Hh Hq. unfold reconcilePending.
  destruct (BuildPVC_built model q Hq) as (pvc & -> & Hn & Hns).
  destruct (OwnPVC_healthy c model pvc Hh) as (pvc' & -> & Hn' & Hns').
  rewrite (GetPVC_healthy _ _ _ Hh), Hn', Hns', Hn, Hns.
  destruct (pvcs c !! (m_Namespace model, PVCName (m_Name model))) as [p|] eqn:Hp.
  - exists c. rewrite Hp. eauto 10.
  - cbn [err_NotFound NewNotFound]. unfold CreatePVC.
    rewrite Hh, Hn', Hns', Hn, Hns, Hp.
    eexists. split; [done|]. cbn. rewrite lookup_insert_eq. eauto 10.
Qed.




(** C1, as amended: [BuildDownloadJob] returns an error exactly for the
    sources with no populated variant; and a pass from Pending (or from an
    unset phase) on such a Model, with a storage size that is a quantity and
    calls that all succeed, ends in Failed without creating a Job. *)
Theorem no_source_fails c ns name o q :
  healthy c → models c !! (ns, name) = Some o →
  st_Phase (obj_Status o) = "" ∨ st_Phase (obj_Status o) = ModelPhasePending →
  ParseQuantity (Size (Storage (obj_Spec o))) = Some q →
  (∀ model, (∃ err, BuildDownloadJob model = inl err)
            ↔ populated (Source (m_Spec model)) = 0%nat)
  ∧ (populated (Source (obj_Spec o)) = 0%nat →
     ∃ c' st, Reconcile c ns name = (c', Requeue requeueFailed)
              ∧ stored_status c' ns name = Some st
              ∧ st_Phase st = ModelPhaseFailed
              ∧ jobs c' = jobs c).
Proof.
  intros Hh Ho Hph Hq. split; [apply BuildDownloadJob_error_iff|].
  intros Hsrc. rewrite (Reconcile_pending _ _ _ _ Hh Ho Hph).
  destruct (reconcilePending_claim c (model_of ns name o) q Hh Hq)
    as (c1 & -> & Hh1 & Hm1 & Hj1 & Hc1 & Hp1).
  destruct (pending_job_no_source c1 (model_of ns name o) (Hh1 _))
    as (c' & st & -> & Hst & Hphase & Hmsg & Hp & Hj); [|done|].
  { cbn. rewrite Hm1, Ho. eauto. }
  exists c', st. rewrite Hj, Hj1. done.
Qed.

Lemma no_source_fails_witness :
  (∃ err, BuildDownloadJob
            (model_of "default" "m1"
               (Samples.object_of (Samples.spec_of Samples.source_none "20Gi")
                  empty_status)) = inl err)
  ∧ ∃ c' st, Reconcile Samples.fresh_none "default" "m1" = (c', Requeue requeueFailed)
             ∧ stored_status c' "default" "m1" = Some st
             ∧ st_Phase st = ModelPhaseFailed
             ∧ jobs c' = jobs Samples.fresh_none.
Proof.
  destruct (no_source_fails Samples.fresh_none "default" "m1"
              (Samples.object_of (Samples.spec_of Samples.source_none "20Gi")
                 empty_status)
              {| q_text := "20Gi" |}) as [Hiff Hpass];
    [intros op; reflexivity | reflexivity | left; reflexivity | reflexivity |].
  split; [apply Hiff; reflexivity | apply Hpass; reflexivity].
Defined.

(** C1, as stated, fails on a source with two populated variants: the Job
    of the first one is built, and the pass creates it and moves on to
    Downloading. *)
Lemma two_sources_build_a_job :
  populated Samples.source_hf_s3 = 2%nat
  ∧ (∃ o, models Samples.fresh_hf_s3 !! ("default", "m1") = Some o
          ∧ Source (obj_Spec o) = Samples.source_hf_s3
          ∧ ∃ job, BuildDownloadJob (model_of "default" "m1" o) = inr job
                   ∧ jcn_Image (job_Container job) = huggingFaceImage)
  ∧ stored_phase (Reconcile Samples.fresh_hf_s3 "default" "m1").1 "default" "m1"
    = Some ModelPhaseDownloading
  ∧ is_Some (jobs (Reconcile Samples.fresh_hf_s3 "default" "m1").1
             !! ("default", JobName "m1")).
Proof.
  split; [reflexivity|].
  split; [eexists; split; [reflexivity|]; split; [reflexivity|];
          eexists; split; reflexivity|].
  split; [by vm_compute|]. vm_compute. eauto.
Qed.

(** *** The Downloading phase *)

Lemma failed_condition_Some conds cond :
  failed_condition conds = Some cond →
  cond ∈ conds ∧ jc_Type cond = JobFailed ∧ jc_Status cond = ConditionTrue.
Proof.
  induction conds as [|x conds IH]; [done|]. cbn.
  destruct (bool_decide (jc_Type x = JobFailed)) eqn:Ht;
    [destruct (bool_decide (jc_Status x = ConditionTrue)) eqn:Hs|]; cbn.
  - intros [= <-]. apply bool_decide_eq_true in Ht, Hs.
    split; [apply list_elem_of_here | done].
  - intros H. destruct (IH H) as (? & ? & ?). split; [by apply list_elem_of_further | done].
  - intros H. destruct (IH H) as (? & ? & ?). split; [by apply list_elem_of_further | done].
Qed.

Lemma failed_condition_None conds :
  failed_condition conds = None →
  ∀ cond, cond ∈ conds → ¬ (jc_Type cond = JobFailed ∧ jc_Status cond = ConditionTrue).
Proof.
  induction conds as [|x conds IH]; [intros _ cond Hin; by apply elem_of_nil in Hin|].
  cbn. destruct (bool_decide (jc_Type x = JobFailed)) eqn:Ht;
    [destruct (bool_decide (jc_Status x = ConditionTrue)) eqn:Hs|]; cbn; [done|..];
    intros H cond [->|Hin]%elem_of_cons [Hty Hst]; try (by eapply (IH H)).
  - apply bool_decide_eq_false in Hs. done.
  - apply bool_decide_eq_false in Ht. done.
Qed.

(** C3, as amended: one pass over a Downloading Model whose calls all
    succeed.  A missing Job sends the Model back to Pending; a Job with a
    positive success count makes it Ready with progress 100; otherwise a Job
    with a positive failure count and a Failed condition of status True
    makes it Failed, the message ending in that condition's message; in
    every other case the phase stays Downloading and the delay is the
    Downloading interval, and the message about the active pods is written
    only when the status had no claim name yet: with a claim name the status
    is not touched. *)
Theorem downloading_pass c ns name o :
  healthy c → models c !! (ns, name) = Some o →
  st_Phase (obj_Status o) = ModelPhaseDownloading →
  (jobs c !! (ns, JobName name) = None →
     ∃ c' st, Reconcile c ns name = (c', Requeue requeuePending)
              ∧ stored_status c' ns name = Some st
              ∧ st_Phase st = ModelPhasePending)
  ∧ (∀ job, jobs c !! (ns, JobName name) = Some job →
     let js := job_Status job in
     let failed := (0 < js_Failed js)%Z
                   ∧ ∃ cond, cond ∈ js_Conditions js ∧ jc_Type cond = JobFailed
                             ∧ jc_Status cond = ConditionTrue in
     ((0 < js_Succeeded js)%Z →
        ∃ c' st, Reconcile c ns name = (c', Requeue requeueReady)
                 ∧ stored_status c' ns name = Some st
                 ∧ st_Phase st = ModelPhaseReady ∧ st_Progress st = 100%Z)
     ∧ (¬ (0 < js_Succeeded js)%Z → failed →
        ∃ c' st cond, Reconcile c ns name = (c', Requeue requeueFailed)
                 ∧ stored_status c' ns name = Some st
                 ∧ st_Phase st = ModelPhaseFailed
                 ∧ cond ∈ js_Conditions js ∧ jc_Type cond = JobFailed
                 ∧ jc_Status cond = ConditionTrue
                 ∧ st_Message st = "Download failed: " +:+ jc_Message cond)
     ∧ (¬ (0 < js_Succeeded js)%Z → ¬ failed →
        ∃ c' st, Reconcile c ns name = (c', Requeue requeueDownloading)
                 ∧ stored_status c' ns name = Some st
                 ∧ st_Phase st = ModelPhaseDownloading
                 ∧ (st_PVCName (obj_Status o) = "" →
                    st_PVCName st = PVCName name
                    ∧ st_Message st = progress_message job
                    ∧ ((0 < js_Active js)%Z →
                       st_Message st = "Download in progress (active pods: "
                                       +:+ GoFmt.fmt_d (js_Active js) +:+ ")"))
                 ∧ (st_PVCName (obj_Status o) ≠ "" → c' = c ∧ st = obj_Status o))).
Proof.
  intros Hh Ho Hph.
  rewrite (Reconcile_downloading _ _ _ _ Hh Ho Hph).
  set (model := model_of ns name o).
  assert (Hm : is_Some (models c !! (m_Namespace model, m_Name model)))
    by (cbn; eauto).
  unfold reconcileDownloading. rewrite (GetJob_healthy _ _ _ Hh).
  cbn [m_Name m_Namespace model model_of]. fold model.
  split.
  - intros ->. cbn [err_NotFound NewNotFound].
    destruct (updateStatus_ok c model ModelPhasePending "Job not found, recreating"
                (Hh _) Hm) as (c' & -> & Hst & _).
    eexists c', _. split; [done|]. split; [exact Hst|done].
  - intros job ->. cbn zeta. split; [|split].
    + intros Hs. apply Z.ltb_lt in Hs. rewrite Hs.
      destruct (updateStatusWithProgress_ok c model ModelPhaseReady "Download complete"
                  100 (Hh _) Hm) as (c' & -> & Hst & _).
      eexists c', _. split; [done|]. split; [exact Hst|done].
    + intros Hs (Hf & cond & Hin & Hty & Hstat). apply Z.ltb_nlt in Hs. rewrite Hs.
      apply Z.ltb_lt in Hf. rewrite Hf.
      destruct (failed_condition (js_Conditions (job_Status job))) as [found|] eqn:Hfc.
      * apply failed_condition_Some in Hfc as (Hin' & Hty' & Hstat').
        destruct (updateStatus_ok c model ModelPhaseFailed
                    ("Download failed: " +:+ jc_Message found) (Hh _) Hm)
          as (c' & -> & Hst & _).
        eexists c', _, found. split; [done|]. split; [exact Hst|done].
      * by destruct (failed_condition_None _ Hfc cond Hin).
    + intros Hs Hnf. apply Z.ltb_nlt in Hs. rewrite Hs.
      assert (Hnone : (if (0 <? js_Failed (job_Status job))%Z
                       then failed_condition (js_Conditions (job_Status job))
                       else None) = None).
      { destruct (0 <? js_Failed (job_Status job))%Z eqn:Hf; [|done].
        destruct (failed_condition _) as [found|] eqn:Hfc; [|done].
        apply failed_condition_Some in Hfc as (? & ? & ?).
        destruct Hnf. apply Z.ltb_lt in Hf. eauto. }
      rewrite Hnone. unfold still_downloading.
      cbn [m_Status m_Name m_Namespace m_Generation model model_of]. fold model.
      case_bool_decide as Hpvc.
      * match goal with |- context [StatusUpdate c ?m] =>
          destruct (StatusUpdate_ok c m (Hh _) Hm) as [c' Hup]; rewrite Hup end.
        apply StatusUpdate_inv in Hup as (Hst & _).
        cbn [m_Status m_Name m_Namespace with_status model model_of] in Hst.
        eexists c', _. split; [done|]. split; [exact Hst|]. cbn.
        split; [done|]. split; [|done]. intros _. split; [done|]. split; [done|].
        intros Ha. unfold progress_message. apply Z.ltb_lt in Ha. by rewrite Ha.
      * exists c, (obj_Status o). split; [done|].
        split; [unfold stored_status; by rewrite Ho|]. done.
Qed.

Lemma downloading_pass_witness :
  (∃ c' st, Reconcile Samples.downloading "default" "m1" = (c', Requeue requeueDownloading)
            ∧ stored_status c' "default" "m1" = Some st
            ∧ st_Phase st = ModelPhaseDownloading
            ∧ c' = Samples.downloading)
  ∧ (∃ c' st, Reconcile Samples.downloading_no_job "default" "m1"
              = (c', Requeue requeuePending)
            ∧ stored_status c' "default" "m1" = Some st
            ∧ st_Phase st = ModelPhasePending)
  ∧ (∃ c' st, Reconcile (Samples.downloading_job Samples.succeeded_once) "default" "m1"
              = (c', Requeue requeueReady)
            ∧ stored_status c' "default" "m1" = Some st
            ∧ st_Phase st = ModelPhaseReady ∧ st_Progress st = 100%Z)
  ∧ (∃ c' st, Reconcile (Samples.downloading_job Samples.failed_out) "default" "m1"
              = (c', Requeue requeueFailed)
            ∧ stored_status c' "default" "m1" = Some st
            ∧ st_Phase st = ModelPhaseFailed
            ∧ st_Message st
              = "Download failed: Job has reached the specified backoff limit").
Proof.
  split; [|split; [|split]].
  - destruct (downloading_pass Samples.downloading "default" "m1"
                Samples.downloading_object)
      as [_ Hjob]; [intros op; reflexivity | reflexivity | reflexivity |].
    destruct (Hjob (Samples.job_with Samples.two_active)) as (_ & _ & Hstay);
      [reflexivity|].
    destruct Hstay as (c' & st & HR & Hst & Hph & _ & Hsame).
    + cbn. lia.
    + intros [Hf _]. cbn in Hf. lia.
    + exists c', st. destruct Hsame as [-> _]; [discriminate|]. done.
  - destruct (downloading_pass Samples.downloading_no_job "default" "m1"
                Samples.downloading_object)
      as [Hgone _]; [intros op; reflexivity | reflexivity | reflexivity |].
    apply Hgone. reflexivity.
  - destruct (downloading_pass (Samples.downloading_job Samples.succeeded_once)
                "default" "m1" Samples.downloading_object)
      as [_ Hjob]; [intros op; reflexivity | reflexivity | reflexivity |].
    destruct (Hjob (Samples.job_with Samples.succeeded_once)) as (Hdone & _);
      [reflexivity|].
    apply Hdone. cbn. lia.
  - destruct (downloading_pass (Samples.downloading_job Samples.failed_out)
                "default" "m1" Samples.downloading_object)
      as [_ Hjob]; [intros op; reflexivity | reflexivity | reflexivity |].
    destruct (Hjob (Samples.job_with Samples.failed_out)) as (_ & Hfail & _);
      [reflexivity|].
    destruct Hfail as (c' & st & cond & HR & Hst & Hph & Hin & _ & _ & Hmsg).
    + cbn. lia.
    + split; [cbn; lia|]. exists Samples.backoff_exceeded.
      split; [apply list_elem_of_here | split; reflexivity].
    + exists c', st. split; [exact HR|]. split; [exact Hst|]. split; [exact Hph|].
      rewrite Hmsg. cbn in Hin. apply list_elem_of_singleton in Hin. by rewrite Hin.
Defined.

(** C3, as stated, fails on the message: a Downloading Model whose status
    already names its claim, with a Job that runs two pods and has neither
    succeeded nor failed, keeps the message it had; nothing is written. *)
Lemma downloading_message_not_refreshed :
  healthy Samples.downloading
  ∧ stored_phase Samples.downloading "default" "m1" = Some ModelPhaseDownloading
  ∧ jobs Samples.downloading !! ("default", JobName "m1")
    = Some (Samples.job_with Samples.two_active)
  ∧ Reconcile Samples.downloading "default" "m1"
    = (Samples.downloading, Requeue requeueDownloading)
  ∧ st_Message <$> stored_status (Reconcile Samples.downloading "default" "m1").1
                     "default" "m1"
    = Some "Download started"
  ∧ progress_message (Samples.job_with Samples.two_active)
    = "Download in progress (active pods: 2)".
Proof.
  split; [intros op; reflexivity|]. repeat split; by vm_compute.
Qed.

(** *** Conditions *)

Lemma merge_first_found now conds new old :
  FindStatusCondition conds (cond_Type new) = Some old →
  FindStatusCondition (merge_first now conds new) (cond_Type new)
  = Some (merge_condition now old new).
Proof.
  induction conds as [|x conds IH]; [done|]. cbn.
  case_bool_decide as Hx; cbn.
  - intros [= <-]. cbn. by rewrite bool_decide_eq_true_2.
  - intros Hf. rewrite bool_decide_eq_false_2 by done. by apply IH.
Qed.

Lemma find_app_fresh conds x ty :
  FindStatusCondition conds ty = None → cond_Type x = ty →
  FindStatusCondition (conds ++ [x]) ty = Some x.
Proof.
  intros Hnone Hty. induction conds as [|y conds IH]; cbn in *.
  - by rewrite bool_decide_eq_true_2.
  - case_bool_decide; [done|]. by apply IH.
Qed.

(** After [SetStatusCondition] the condition of the type is there; it has
    the new status, and the transition time of the old condition unless
    the status changed or there was none. *)
Lemma SetStatusCondition_found now conds new t :
  cond_LastTransitionTime new = Some t →
  ∃ cond, FindStatusCondition (SetStatusCondition now conds new) (cond_Type new)
          = Some cond
        ∧ cond_Status cond = cond_Status new
        ∧ cond_LastTransitionTime cond =
            match FindStatusCondition conds (cond_Type new) with
            | Some old => if bool_decide (cond_Status old = cond_Status new)
                          then cond_LastTransitionTime old else Some t
            | None => Some t
            end.
Proof.
  intros Ht. unfold SetStatusCondition.
  destruct (FindStatusCondition conds (cond_Type new)) as [old|] eqn:Hf.
  - eexists. split; [by apply merge_first_found|]. cbn. by rewrite Ht.
  - eexists. split; [by apply find_app_fresh|]. cbn. by rewrite Ht.
Qed.

(** The write that fills in the claim name keeps the conditions it found. *)
Lemma backfill_keeps_conditions c model job c' out st :
  still_downloading c model job = (c', out) →
  stored_status c (m_Namespace model) (m_Name model) = Some (m_Status model) →
  stored_status c' (m_Namespace model) (m_Name model) = Some st →
  st_Conditions st = st_Conditions (m_Status model)
  ∧ st_Phase st = st_Phase (m_Status model).
Proof.
  unfold still_downloading. case_bool_decide as Hpvc.
  - destruct (StatusUpdate _ _) as [err|c1] eqn:Hup; intros [= <- <-] Hold Hst.
    + rewrite Hold in Hst. by injection Hst as <-.
    + apply StatusUpdate_inv in Hup as (Hst' & _). cbn in Hst'.
      rewrite Hst' in Hst. by injection Hst as <-.
  - intros [= <- <-] Hold Hst. rewrite Hold in Hst. by injection Hst as <-.
Qed.

(** C5, as amended: every status write of [updateStatusWithProgress], which
    is every write that sets a phase, stores a Ready condition that is True
    exactly when the new phase is Ready and False otherwise; its transition
    time is the one already stored when the stored Ready condition had the
    same status, and the time of the write otherwise; hence a second write
    with the same status leaves the stored transition time as it is. *)
Theorem ready_condition_tracks_phase c model phase message progress c' d :
  updateStatusWithProgress c model phase message progress = (c', Requeue d) →
  ∃ st cond,
    stored_status c' (m_Namespace model) (m_Name model) = Some st
    ∧ st_Phase st = phase
    ∧ FindStatusCondition (st_Conditions st) conditionTypeReady = Some cond
    ∧ (cond_Status cond = ConditionTrue ↔ phase = ModelPhaseReady)
    ∧ (cond_Status cond = ConditionFalse ↔ phase ≠ ModelPhaseReady)
    ∧ cond_LastTransitionTime cond =
        match FindStatusCondition (st_Conditions (m_Status model)) conditionTypeReady with
        | Some old => if bool_decide (cond_Status old = cond_Status cond)
                      then cond_LastTransitionTime old else Some (clock c)
        | None => Some (clock c)
        end
    ∧ ∀ c2 model2 phase2 message2 progress2 c2' d2,
        m_Status model2 = st →
        (phase2 = ModelPhaseReady ↔ phase = ModelPhaseReady) →
        updateStatusWithProgress c2 model2 phase2 message2 progress2 = (c2', Requeue d2) →
        ∃ st2 cond2,
          stored_status c2' (m_Namespace model2) (m_Name model2) = Some st2
          ∧ FindStatusCondition (st_Conditions st2) conditionTypeReady = Some cond2
          ∧ cond_Status cond2 = cond_Status cond
          ∧ cond_LastTransitionTime cond2 = cond_LastTransitionTime cond.
Proof.
  intros H.
  assert (Hwrite : ∀ c model phase message progress c' d,
    updateStatusWithProgress c model phase message progress = (c', Requeue d) →
    ∃ st cond,
      stored_status c' (m_Namespace model) (m_Name model) = Some st
      ∧ st_Phase st = phase
      ∧ FindStatusCondition (st_Conditions st) conditionTypeReady = Some cond
      ∧ cond_Status cond = (if bool_decide (phase = ModelPhaseReady)
                            then ConditionTrue else ConditionFalse)
      ∧ cond_LastTransitionTime cond =
          match FindStatusCondition (st_Conditions (m_Status model)) conditionTypeReady with
          | Some old => if bool_decide (cond_Status old = cond_Status cond)
                        then cond_LastTransitionTime old else Some (clock c)
          | None => Some (clock c)
          end).
  { clear. intros c model phase message progress c' d H.
    apply updateStatusWithProgress_inv in H as [[_ [e ?]] | (_ & Hst & _)]; [done|].
    destruct (SetStatusCondition_found (clock c) (st_Conditions (m_Status model))
                (ready_condition (clock c) model phase message) (clock c) eq_refl)
      as (cond & Hfind & Hstatus & Htime).
    exists (next_status (clock c) model phase message progress), cond.
    split; [done|]. split; [done|]. split; [exact Hfind|].
    split; [exact Hstatus|]. rewrite Htime, Hstatus. done. }
  destruct (Hwrite _ _ _ _ _ _ _ H) as (st & cond & Hst & Hph & Hfind & Hstatus & Htime).
  exists st, cond. split; [done|]. split; [done|]. split; [done|].
  split; [|split; [|split; [done|]]].
  - rewrite Hstatus. case_bool_decide; split; done.
  - rewrite Hstatus. case_bool_decide; split; done.
  - intros c2 model2 phase2 message2 progress2 c2' d2 Hm2 Hsame H2.
    destruct (Hwrite _ _ _ _ _ _ _ H2)
      as (st2 & cond2 & Hst2 & _ & Hfind2 & Hstatus2 & Htime2).
    assert (Heq : cond_Status cond2 = cond_Status cond).
    { rewrite Hstatus2, Hstatus. repeat case_bool_decide; try done; tauto. }
    exists st2, cond2. split; [done|]. split; [done|]. split; [done|].
    rewrite Htime2, Hm2, Hfind, Heq. by rewrite bool_decide_eq_true_2.
Qed.

Lemma ready_condition_tracks_phase_witness :
  let model := model_of "default" "m1" Samples.downloading_object in
  let write := updateStatusWithProgress Samples.downloading model ModelPhaseReady
                 "Download complete" 100 in
  ∃ st cond,
    stored_status write.1 "default" "m1" = Some st
    ∧ st_Phase st = ModelPhaseReady
    ∧ FindStatusCondition (st_Conditions st) conditionTypeReady = Some cond
    ∧ cond_Status cond = ConditionTrue
    ∧ cond_LastTransitionTime cond = Some (clock Samples.downloading).
Proof.
  intros model write.
  destruct (ready_condition_tracks_phase Samples.downloading model ModelPhaseReady
              "Download complete" 100 write.1 requeueReady)
    as (st & cond & Hst & Hph & Hfind & Htrue & _ & Htime & _); [reflexivity|].
  exists st, cond. split; [exact Hst|]. split; [exact Hph|]. split; [exact Hfind|].
  assert (Hs : cond_Status cond = ConditionTrue) by (by apply Htrue).
  split; [exact Hs|]. rewrite Htime, Hs. reflexivity.
Defined.

(** C5, as stated, fails on the one status write that sets no phase: the
    pass that fills in the claim name of a Downloading Model stores a new
    status, and the stored status has no Ready condition afterwards. *)
Lemma backfill_writes_no_condition :
  healthy Samples.downloading_bare
  ∧ stored_phase Samples.downloading_bare "default" "m1" = Some ModelPhaseDownloading
  ∧ ∃ c' st, Reconcile Samples.downloading_bare "default" "m1"
             = (c', Requeue requeueDownloading)
           ∧ stored_status c' "default" "m1" = Some st
           ∧ stored_status Samples.downloading_bare "default" "m1" ≠ Some st
           ∧ st_Phase st = ModelPhaseDownloading
           ∧ st_PVCName st = "model-m1"
           ∧ FindStatusCondition (st_Conditions st) conditionTypeReady = None.
Proof.
  split; [intros op; reflexivity|]. split; [reflexivity|].
  eexists _, _. split; [reflexivity|]. split; [reflexivity|].
  split; [by vm_compute|]. by vm_compute.
Qed.

Lemma recovery_by_deletion_witness :
  stored_phase (Reconcile Samples.ready_no_claim "default" "m1").1 "default" "m1"
  = Some ModelPhasePending
  ∧ stored_phase (Reconcile Samples.ready_with_claim "default" "m1").1 "default" "m1"
    = Some ModelPhaseReady
  ∧ stored_phase (Reconcile Samples.failed_no_job "default" "m1").1 "default" "m1"
    = Some ModelPhasePending
  ∧ stored_phase (Reconcile Samples.failed_with_job "default" "m1").1 "default" "m1"
    = Some ModelPhaseFailed.
Proof.
  split; [|split; [|split]].
  - destruct (recovery_by_deletion Samples.ready_no_claim "default" "m1"
                Samples.ready_object)
      as [Hready _]; [intros op; reflexivity | reflexivity |].
    destruct Hready as [Hgone _]; [reflexivity|]. apply Hgone. reflexivity.
  - destruct (recovery_by_deletion Samples.ready_with_claim "default" "m1"
                Samples.ready_object)
      as [Hready _]; [intros op; reflexivity | reflexivity |].
    destruct Hready as [_ Hthere]; [reflexivity|]. apply Hthere.
    exists Samples.claim. reflexivity.
  - destruct (recovery_by_deletion Samples.failed_no_job "default" "m1"
                Samples.failed_object)
      as [_ Hfailed]; [intros op; reflexivity | reflexivity |].
    destruct Hfailed as [Hgone _]; [reflexivity|]. apply Hgone. reflexivity.
  - destruct (recovery_by_deletion Samples.failed_with_job "default" "m1"
                Samples.failed_object)
      as [_ Hfailed]; [intros op; reflexivity | reflexivity |].
    destruct Hfailed as [_ Hthere]; [reflexivity|]. apply Hthere.
    exists (Samples.job_with Samples.failed_out). reflexivity.
Defined.

Lemma phase_stays_in_enum_witness :
  ∃ c' st, Reconcile Samples.archived "default" "m1" = (c', Requeue requeuePending)
           ∧ stored_status c' "default" "m1" = Some st
           ∧ st_Phase st = ModelPhasePending
           ∧ st_Message st = "Unknown phase, resetting"
           ∧ valid_phase (st_Phase st).
Proof.
  destruct (phase_stays_in_enum Samples.archived "default" "m1") as [Hreset Hvalid].
  destruct (Hreset (Samples.object_of (Samples.spec_of Samples.source_hf "20Gi")
                      (Samples.status_at "Archived" "model-m1" "" [])))
    as (c' & st & HR & Hst & Hph & Hmsg).
  - intros op; reflexivity.
  - reflexivity.
  - discriminate.
  - intros [H|[H|[H|H]]]; discriminate H.
  - exists c', st. repeat (split; [assumption|]).
    exact (Hvalid c' requeuePending st HR Hst).
Defined.

End ControllerFacts.









(** ** The admission mutator *)
Section WebhookFacts.
Import API K8s Naming GoStrings Webhook.

Lemma find_container_names (cs cs' : list Container) name :
  c_Name <$> cs = c_Name <$> cs' →
  find_container cs name = find_container cs' name.
Proof.
  revert cs'. induction cs as [|x cs IH]; intros [|y cs']; cbn; try done.
  intros [= Hx Hcs]. rewrite Hx. by rewrite (IH cs').
Qed.

(** The index [find_container] answers is in range and has the name. *)
Lemma find_container_lookup (cs : list Container) name i :
  find_container cs name = Some i →
  ∃ c, cs !! i = Some c ∧ c_Name c = name.
Proof.
  revert i. induction cs as [|x cs IH]; intros i; cbn; [done|].
  case_bool_decide as Hx.
  - intros [= <-]. eauto.
  - destruct (find_container cs name) as [j|]; [|done].
    intros [= <-]. by apply IH.
Qed.

Lemma names_insert (cs : list Container) (i : nat) x y :
  cs !! i = Some x → c_Name y = c_Name x →
  c_Name <$> <[i := y]> cs = c_Name <$> cs.
Proof.
  intros Hi Hn. rewrite list_fmap_insert. apply list_insert_id.
  by rewrite list_lookup_fmap, Hi, Hn.
Qed.

Lemma names_nil (cs cs' : list Container) :
  c_Name <$> cs = c_Name <$> cs' → cs = [] → cs' = [].
Proof. intros H ->. by destruct cs'. Qed.

Lemma bad_target_names (cs cs' : list Container) opts :
  c_Name <$> cs = c_Name <$> cs' → bad_target cs opts → bad_target cs' opts.
Proof.
  intros Hn [Hnil | [Hne Hfind]].
  - left. by eapply names_nil.
  - right. split; [done|]. by rewrite <- (find_container_names cs cs').
Qed.

Lemma deny_reason_names c ns opts (cs cs' : list Container) n msg :
  c_Name <$> cs = c_Name <$> cs' →
  deny_reason c ns opts cs n msg → deny_reason c ns opts cs' n msg.
Proof.
  intros Hn [H | [H | [[Hnil ->] | (Hne & Hfind & ->)]]].
  - by left.
  - right. by left.
  - right. right. left. split; [by eapply names_nil | done].
  - right. right. right. rewrite <- (find_container_names cs cs') by done. done.
Qed.

Lemma injectVolume_same pod model :
  Containers (injectVolume pod model) = Containers pod
  ∧ Labels (injectVolume pod model) = Labels pod.
Proof. unfold injectVolume. by destruct (existsb _ _). Qed.

(** What [injectVolumeMount] answers: an error exactly for a bad target;
    otherwise a Pod with the same containers by name and the same labels. *)
Lemma injectVolumeMount_cases pod model opts :
  match injectVolumeMount pod model opts with
  | inl err =>
      (Containers pod = [] ∧ err_Msg err = "pod has no containers")
      ∨ (ContainerName opts ≠ ""
         ∧ find_container (Containers pod) (ContainerName opts) = None
         ∧ err_Msg err = "container " +:+ GoFmt.fmt_q (ContainerName opts) +:+ " not found")
  | inr pod' =>
      ¬ bad_target (Containers pod) opts
      ∧ c_Name <$> Containers pod' = c_Name <$> Containers pod
      ∧ Labels pod' = Labels pod
  end.
Proof.
  unfold injectVolumeMount. case_bool_decide as Hlen.
  { left. split; [by apply nil_length_inv | done]. }
  assert (Hne : Containers pod ≠ []) by (intros Heq; by rewrite Heq in Hlen).
  case_bool_decide as Hsel.
  - destruct (find_container (Containers pod) (ContainerName opts)) as [i|] eqn:Hfind.
    + assert (Hgood : ¬ bad_target (Containers pod) opts).
      { intros [?|[_ ?]]; [done|congruence]. }
      destruct (Containers pod !! i) as [x|] eqn:Hi; [|done].
      destruct (existsb _ _); [done|]. split; [done|]. split; [|done].
      cbn. by apply (names_insert _ _ x).
    + right. done.
  - assert (Hgood : ¬ bad_target (Containers pod) opts).
    { intros [?|[? _]]; done. }
    destruct (Containers pod !! 0%nat) as [x|] eqn:Hi; [|done].
    destruct (existsb _ _); [done|]. split; [done|]. split; [|done].
    cbn. by apply (names_insert _ _ x).
Qed.

Lemma injectEnvVars_cases pod model opts :
  Containers pod ≠ [] →
  ∃ pod', injectEnvVars pod model opts = inr pod'
          ∧ c_Name <$> Containers pod' = c_Name <$> Containers pod
          ∧ Labels pod' = Labels pod.
Proof.
  intros Hne. unfold injectEnvVars.
  rewrite bool_decide_eq_false_2 by (by destruct (Containers pod)).
  match goal with |- context [Containers pod !! ?i] =>
    destruct (Containers pod !! i) as [x|] eqn:Hi end; [|eauto].
  eexists. split; [done|]. split; [|done]. cbn. by apply (names_insert _ _ x).
Qed.

(** One round of the loop: a denial with its reason, or a Pod that differs
    from the one before by injected entries only. *)
Lemma inject_one_cases c ns opts n pod :
  match inject_one c ns opts n pod with
  | inl resp => ∃ msg, resp = Denied msg ∧ deny_reason c ns opts (Containers pod) n msg
  | inr pod' =>
      (∃ model, GetModel c ns n = inr model
                ∧ st_Phase (m_Status model) = ModelPhaseReady)
      ∧ ¬ bad_target (Containers pod) opts
      ∧ c_Name <$> Containers pod' = c_Name <$> Containers pod
      ∧ Labels pod' = Labels pod
  end.
Proof.
  unfold inject_one. destruct (GetModel c ns n) as [err|model] eqn:Hget.
  { eexists. split; [done|]. left. eauto. }
  case_bool_decide as Hph.
  { eexists. split; [done|]. right. left. eauto. }
  destruct (injectVolume_same pod model) as [Hcs Hls].
  pose proof (injectVolumeMount_cases (injectVolume pod model) model opts) as Hmount.
  destruct (injectVolumeMount (injectVolume pod model) model opts) as [err|pod1].
  { rewrite Hcs in Hmount. eexists. split; [done|]. right. right.
    destruct Hmount as [[Hnil ->] | (Hne & Hfind & ->)]; [left|right]; done. }
  destruct Hmount as (Hgood & Hnames & Hlabels). rewrite Hcs in Hgood, Hnames.
  rewrite Hls in Hlabels.
  destruct (InjectEnv opts); [|eauto 10].
  destruct (injectEnvVars_cases pod1 model opts) as (pod2 & -> & Hnames2 & Hlabels2).
  { intros Hnil. apply Hgood. left.
    apply (names_nil (Containers pod1)); by rewrite ?Hnames. }
  split; [eauto|]. split; [done|]. split; congruence.
Qed.

Lemma model_names_cons field fields :
  model_names (field :: fields) =
    if bool_decide (TrimSpace field = "") then model_names fields
    else TrimSpace field :: model_names fields.
Proof.
  unfold model_names. rewrite fmap_cons, filter_cons.
  case_decide; case_bool_decide; done.
Qed.

(** The whole loop: it denies with the reason of the first name that cannot
    be injected, or it went through every name. *)
Lemma inject_all_cases c ns opts fields pod :
  match inject_all c ns opts fields pod with
  | inl resp =>
      ∃ msg n, resp = Denied msg ∧ n ∈ model_names fields
               ∧ deny_reason c ns opts (Containers pod) n msg
  | inr pod' =>
      (∀ n, n ∈ model_names fields →
            ∃ model, GetModel c ns n = inr model
                     ∧ st_Phase (m_Status model) = ModelPhaseReady)
      ∧ (model_names fields ≠ [] → ¬ bad_target (Containers pod) opts)
      ∧ c_Name <$> Containers pod' = c_Name <$> Containers pod
      ∧ Labels pod' = Labels pod
  end.
Proof.
  revert pod. induction fields as [|field fields IH]; intros pod.
  { cbn. split; [intros n Hn; by apply elem_of_nil in Hn|done]. }
  cbn [inject_all]. rewrite model_names_cons. case_bool_decide as Hempty.
  { apply IH. }
  pose proof (inject_one_cases c ns opts (TrimSpace field) pod) as Hone.
  destruct (inject_one c ns opts (TrimSpace field) pod) as [resp|pod1].
  { destruct Hone as (msg & -> & Hreason). exists msg, (TrimSpace field).
    split; [done|]. split; [apply list_elem_of_here | done]. }
  destruct Hone as (Hready & Hgood & Hnames & Hlabels).
  specialize (IH pod1). destruct (inject_all c ns opts fields pod1) as [resp|pod2].
  - destruct IH as (msg & n & -> & Hin & Hreason). exists msg, n.
    split; [done|]. split; [by apply list_elem_of_further|].
    by apply (deny_reason_names _ _ _ (Containers pod1)).
  - destruct IH as (Hall & _ & Hnames2 & Hlabels2).
    split; [|split; [done|split; congruence]].
    intros n [->|Hin]%elem_of_cons; [done|by apply Hall].
Qed.



(** The loop answers with a denial or not at all. *)
Lemma inject_all_denied c ns opts fields pod resp :
  inject_all c ns opts fields pod = inl resp → Patched resp = None.
Proof.
  intros H. pose proof (inject_all_cases c ns opts fields pod) as Hall.
  rewrite H in Hall. by destruct Hall as (msg & n & -> & _).
Qed.

(** C8: a Pod that carries the marker label, or that has no inject
    annotation or an empty one, is allowed with no patch; and the Pod a
    successful injection leads to carries the marker label, so that the
    handler allows it unchanged when it sees it again. *)
Theorem injection_idempotent c req pod :
  req_Object req = inr pod →
  (Labels pod !! LabelInjected = Some "true"
   ∨ Annotations pod !! AnnotationInject = None
   ∨ Annotations pod !! AnnotationInject = Some "" →
   Allowed (Handle c req) = true ∧ Patched (Handle c req) = None)
  ∧ (∀ pod', Patched (Handle c req) = Some pod' →
       Labels pod' !! LabelInjected = Some "true"
       ∧ ∀ c2 req2, req_Object req2 = inr pod' →
           Handle c2 req2 = AllowedResp "already injected"
           ∧ Patched (Handle c2 req2) = None).
Proof.
  intros Hobj. split.
  - intros Hskip. unfold Handle. rewrite Hobj. case_bool_decide as Hl; [done|].
    destruct Hskip as [Hlabel | [-> | ->]]; done.
  - intros pod'. unfold Handle at 1. rewrite Hobj.
    case_bool_decide as Hl; [done|].
    destruct (Annotations pod !! AnnotationInject) as [a|]; [|done].
    case_bool_decide as Ha; [done|].
    destruct (inject_all _ _ _ _ _) as [resp|pod1] eqn:Hall.
    { intros Hp. by rewrite (inject_all_denied _ _ _ _ _ _ Hall) in Hp. }
    cbn. intros [= <-]. cbn. rewrite lookup_insert_eq. split; [done|].
    intros c2 req2 Hobj2. unfold Handle. rewrite Hobj2. cbn.
    rewrite lookup_insert_eq. by rewrite bool_decide_eq_true_2.
Qed.


Lemma injection_idempotent_witness :
  (Allowed (Handle Samples.ready_no_claim (Samples.request_for Samples.plain_pod)) = true
   ∧ Patched (Handle Samples.ready_no_claim (Samples.request_for Samples.plain_pod))
     = None)
  ∧ ∃ pod',
      Patched (Handle Samples.ready_no_claim
                 (Samples.request_for (Samples.pod_requesting "m1" [Samples.app])))
      = Some pod'
      ∧ Labels pod' !! LabelInjected = Some "true"
      ∧ Handle Samples.ready_no_claim (Samples.request_for pod')
        = AllowedResp "already injected".
Proof.
  split.
  - destruct (injection_idempotent Samples.ready_no_claim
                (Samples.request_for Samples.plain_pod) Samples.plain_pod eq_refl)
      as [Hskip _].
    apply Hskip. right. left. reflexivity.
  - destruct (injection_idempotent Samples.ready_no_claim
                (Samples.request_for (Samples.pod_requesting "m1" [Samples.app]))
                (Samples.pod_requesting "m1" [Samples.app]) eq_refl) as [_ Hstamp].
    destruct (Patched (Handle Samples.ready_no_claim
                (Samples.request_for (Samples.pod_requesting "m1" [Samples.app]))))
      as [pod'|] eqn:Hpatched; [|by vm_compute in Hpatched].
    exists pod'. split; [reflexivity|].
    destruct (Hstamp pod' eq_refl) as [Hlabel Hagain].
    split; [exact Hlabel|].
    exact (proj1 (Hagain Samples.ready_no_claim (Samples.request_for pod') eq_refl)).
Defined.

(** *** Mount path and environment *)

(** Both functions compute the same mount path. *)
Lemma mount_path_agree model opts :
  mount_path_of_env model opts = mount_path_of_mount model opts.
Proof. reflexivity. Qed.

(** The three branches, the override being the mount-path option: none
    gives the default; one with a placeholder has every placeholder replaced;
    any other is kept if it ends with the name and is otherwise a base
    directory, joined to the name with one slash. *)
Lemma mount_path_rule model opts :
  let name := m_Name model in
  let override := MountPath opts in
  (override = "" → mount_path_of_env model opts = "/models/" +:+ name)
  ∧ (override ≠ "" → Contains override "{name}" = true →
     mount_path_of_env model opts = ReplaceAll override "{name}" name)
  ∧ (override ≠ "" → Contains override "{name}" = false →
     HasSuffix override name = true → mount_path_of_env model opts = override)
  ∧ (override ≠ "" → Contains override "{name}" = false →
     HasSuffix override name = false →
     mount_path_of_env model opts = TrimSuffix override "/" +:+ "/" +:+ name).
Proof.
  cbn zeta. unfold mount_path_of_env. repeat split.
  - intros ->. done.
  - intros Hne ->. by rewrite bool_decide_eq_false_2.
  - intros Hne -> ->. by rewrite bool_decide_eq_false_2.
  - intros Hne -> ->. by rewrite bool_decide_eq_false_2.
Qed.

(** The source-specific variables are a pair for a HuggingFace, an S3 and a
    URL source, and none at all for a source that is only a Git one. *)
Lemma source_env_by_kind prefix source :
  match HuggingFace source, S3 source, URL source with
  | None, None, None => source_env prefix source = []
  | _, _, _ =>
      ∃ kind key value,
        source_env prefix source =
          [ {| env_Name := prefix +:+ "_SOURCE_TYPE"; env_Value := kind |};
            {| env_Name := prefix +:+ key; env_Value := value |} ]
        ∧ (kind, key) ∈ [("huggingface", "_REPO_ID"); ("s3", "_BUCKET"); ("url", "_URL")]
  end.
Proof.
  unfold source_env.
  destruct (HuggingFace source), (S3 source), (URL source); try done;
    eexists _, _, _; (split; [reflexivity|]);
    repeat first [apply list_elem_of_here | apply list_elem_of_further].
Qed.

(** C2 at a Git source: a Ready Model that comes from a Git repository is
    injected with its name and mount path only; no source type and no
    source-specific variable is set, in [injectEnvVars] as in the patch the
    handler answers with. *)
Theorem git_source_env_missing :
  let o := Samples.object_of (Samples.spec_of Samples.source_git "20Gi")
             (Samples.status_at "Ready" "model-m1" "Download complete" []) in
  let model := model_of "default" "m1" o in
  let opts := parseOptions {[ AnnotationInject := "m1" ]} in
  populated (Source (m_Spec model)) = 1%nat
  ∧ InjectEnv opts = true
  ∧ model_env model opts =
      [ {| env_Name := "MODEL_M1_NAME"; env_Value := "m1" |};
        {| env_Name := "MODEL_M1_MOUNT_PATH"; env_Value := "/models/m1" |} ]
  ∧ (Containers <$>
       Patched (Handle Samples.ready_git
                  (Samples.request_for (Samples.pod_requesting "m1" [Samples.app]))))
    = Some [ {| c_Name := "app";
                c_VolumeMounts := [ {| vm_Name := "model-m1";
                                       vm_MountPath := "/models/m1";
                                       vm_ReadOnly := true |} ];
                c_Env := [ {| env_Name := "MODEL_M1_NAME"; env_Value := "m1" |};
                           {| env_Name := "MODEL_M1_MOUNT_PATH";
                              env_Value := "/models/m1" |} ] |} ].
Proof. repeat split; by vm_compute. Qed.

End WebhookFacts.



(** ** What a pass does and does not do to the cluster *)
Section EffectFacts.
Import API K8s Naming Resources Controller Effects.

Lemma grows_refl ns name c : grows ns name c c.
Proof.
  repeat split; try done. intros k. destruct (models c !! k) as [o|]; eauto.
Qed.

Lemma grows_trans ns name c1 c2 c3 :
  grows ns name c1 c2 → grows ns name c2 c3 → grows ns name c1 c3.
Proof.
  intros (Hp1 & Hj1 & Hc1 & Hf1 & Hm1) (Hp2 & Hj2 & Hc2 & Hf2 & Hm2).
  split; [by etrans|]. split; [by etrans|]. split; [congruence|]. split; [congruence|].
  intros k. specialize (Hm1 k). specialize (Hm2 k).
  destruct (models c1 !! k) as [o1|].
  - destruct Hm1 as (o2 & Ho2 & Hg2 & Hs2 & Hk2). rewrite Ho2 in Hm2.
    destruct Hm2 as (o3 & Ho3 & Hg3 & Hs3 & Hk3).
    exists o3. split; [done|]. split; [congruence|]. split; [congruence|].
    intros Hk. rewrite (Hk3 Hk). by apply Hk2.
  - by rewrite Hm1 in Hm2.
Qed.

Lemma CreatePVC_grows ns name c p c' :
  CreatePVC c p = inr c' → grows ns name c c' ∧ models c' = models c.
Proof.
  unfold CreatePVC. destruct (faults c OpCreatePVC); [done|].
  destruct (pvcs c !! (pvc_Namespace p, pvc_Name p)) eqn:Hp; [done|].
  intros [= <-]. split; [|done]. split; [by apply insert_subseteq|].
  do 3 (split; [done|]). intros k. cbn. destruct (models c !! k); eauto.
Qed.

Lemma CreateJob_grows ns name c j c' :
  CreateJob c j = inr c' → grows ns name c c' ∧ models c' = models c.
Proof.
  unfold CreateJob. destruct (faults c OpCreateJob); [done|].
  destruct (jobs c !! (job_Namespace j, job_Name j)) eqn:Hj; [done|].
  intros [= <-]. split; [|done]. split; [done|]. split; [by apply insert_subseteq|].
  do 2 (split; [done|]). intros k. cbn. destruct (models c !! k); eauto.
Qed.

Lemma StatusUpdate_grows c m c' :
  StatusUpdate c m = inr c' → grows (m_Namespace m) (m_Name m) c c'.
Proof.
  unfold StatusUpdate. destruct (faults c OpUpdateStatus); [done|].
  destruct (models c !! (m_Namespace m, m_Name m)) as [o|] eqn:Ho; [|done].
  intros [= <-]. do 4 (split; [done|]). intros k. cbn.
  destruct (decide (k = (m_Namespace m, m_Name m))) as [->|Hk].
  - rewrite Ho, lookup_insert_eq. eexists. split; [done|]. done.
  - rewrite lookup_insert_ne by done. destruct (models c !! k); eauto.
Qed.

Lemma updateStatusWithProgress_grows c model phase message progress c' out :
  updateStatusWithProgress c model phase message progress = (c', out) →
  grows (m_Namespace model) (m_Name model) c c'.
Proof.
  unfold updateStatusWithProgress.
  destruct (StatusUpdate _ _) as [err|c1] eqn:Hup; intros [= <- <-].
  - apply grows_refl.
  - by apply StatusUpdate_grows in Hup.
Qed.

Lemma updateStatus_grows c model phase message c' out :
  updateStatus c model phase message = (c', out) →
  grows (m_Namespace model) (m_Name model) c c'.
Proof. apply updateStatusWithProgress_grows. Qed.

Ltac split_matches :=
  repeat match goal with
         | |- context [match ?x with _ => _ end] => destruct x eqn:?
         end.

(** A status write seen from a cluster with the same Models and clock. *)
Lemma updateStatusWithProgress_effect c0 c model phase message progress c' out :
  clock c = clock c0 → models c = models c0 →
  valid_phase phase →
  (progress = st_Progress (m_Status model)
   ∨ (progress = 100%Z ∧ phase = ModelPhaseReady
      ∧ st_Phase (m_Status model) = ModelPhaseDownloading)) →
  updateStatusWithProgress c model phase message progress = (c', out) →
  status_effect c0 c' model out.
Proof.
  intros Hclock Hmodels Hvalid Hprog H.
  apply updateStatusWithProgress_inv in H as [[-> [err ->]] | (-> & Hst & _)]; cbn.
  - done.
  - right. left. exists phase, message, progress. by rewrite <- Hclock.
Qed.

Lemma updateStatus_effect c0 c model phase message c' out :
  clock c = clock c0 → models c = models c0 → valid_phase phase →
  updateStatus c model phase message = (c', out) →
  status_effect c0 c' model out.
Proof.
  intros Hclock Hmodels Hvalid. apply updateStatusWithProgress_effect; auto.
Qed.

Ltac by_status_write :=
  match goal with
  | H : updateStatus _ _ _ _ = _ |- grows _ _ _ _ =>
      apply updateStatus_grows in H; exact H
  | H : updateStatusWithProgress _ _ _ _ _ = _ |- grows _ _ _ _ =>
      apply updateStatusWithProgress_grows in H; exact H
  | H : updateStatus _ _ _ _ = _ |- status_effect _ _ _ _ =>
      apply (updateStatus_effect _ _ _ _ _ _ _ eq_refl eq_refl) in H;
      [exact H | unfold valid_phase; tauto]
  end.

Lemma pending_job_effect c model c' out :
  pending_job c model = (c', out) →
  grows (m_Namespace model) (m_Name model) c c' ∧ status_effect c c' model out.
Proof.
  unfold pending_job. split_matches; intros H;
    try (injection H as <- <-; split; [apply grows_refl | done]);
    try (split; by_status_write).
  - match goal with Hc : CreateJob _ _ = inr _ |- _ =>
      apply (CreateJob_grows (m_Namespace model) (m_Name model)) in Hc as [Hg Hm] end.
    split.
    + eapply grows_trans; [exact Hg|]. by_status_write.
    + destruct Hg as (_ & _ & Hclock & _).
      apply (updateStatus_effect c _ _ _ _ _ _ Hclock Hm) in H;
        [exact H | unfold valid_phase; tauto].
Qed.

Lemma status_effect_from c0 c c' model out :
  clock c = clock c0 → models c = models c0 →
  status_effect c c' model out → status_effect c0 c' model out.
Proof.
  intros Hclock Hmodels. unfold status_effect. destruct out; [|congruence..].
  rewrite Hclock, Hmodels. tauto.
Qed.

Lemma reconcilePending_effect c model c' out :
  reconcilePending c model = (c', out) →
  grows (m_Namespace model) (m_Name model) c c' ∧ status_effect c c' model out.
Proof.
  unfold reconcilePending. split_matches; intros H;
    try (injection H as <- <-; split; [apply grows_refl | done]);
    try (split; by_status_write);
    try (by apply pending_job_effect).
  match goal with Hc : CreatePVC _ _ = inr _ |- _ =>
    apply (CreatePVC_grows (m_Namespace model) (m_Name model)) in Hc as [Hg Hm] end.
  apply pending_job_effect in H as [Hg' He]. split.
  - by eapply grows_trans.
  - destruct Hg as (_ & _ & Hclock & _). by eapply status_effect_from.
Qed.

Lemma still_downloading_effect c model job c' out :
  st_Phase (m_Status model) = ModelPhaseDownloading →
  still_downloading c model job = (c', out) →
  grows (m_Namespace model) (m_Name model) c c' ∧ status_effect c c' model out.
Proof.
  intros Hph. unfold still_downloading. case_bool_decide as Hpvc.
  - destruct (StatusUpdate _ _) as [err|c1] eqn:Hup; intros [= <- <-].
    + split; [apply grows_refl | done].
    + split; [by apply StatusUpdate_grows in Hup|].
      apply StatusUpdate_inv in Hup as (Hst & _). cbn in Hst.
      right. right. eexists. split; [exact Hst|]. done.
  - intros [= <- <-]. split; [apply grows_refl|]. left. rewrite Hph. auto.
Qed.

Lemma reconcileDownloading_effect c model c' out :
  st_Phase (m_Status model) = ModelPhaseDownloading →
  reconcileDownloading c model = (c', out) →
  grows (m_Namespace model) (m_Name model) c c' ∧ status_effect c c' model out.
Proof.
  intros Hph. unfold reconcileDownloading. split_matches; intros H;
    try (injection H as <- <-; split; [apply grows_refl | done]);
    try (split; by_status_write);
    try (exact (still_downloading_effect _ _ _ _ _ Hph H)).
  split; [by_status_write|].
  apply (updateStatusWithProgress_effect c _ _ _ _ _ _ _ eq_refl eq_refl) in H;
    [exact H | unfold valid_phase; tauto | tauto].
Qed.

Lemma reconcileReady_effect c model c' out :
  st_Phase (m_Status model) = ModelPhaseReady →
  reconcileReady c model = (c', out) →
  grows (m_Namespace model) (m_Name model) c c' ∧ status_effect c c' model out.
Proof.
  intros Hph. unfold reconcileReady. split_matches; intros H;
    try (split; by_status_write);
    injection H as <- <-; (split; [apply grows_refl|]); try done.
  left. rewrite Hph. auto.
Qed.

Lemma reconcileFailed_effect c model c' out :
  st_Phase (m_Status model) = ModelPhaseFailed →
  reconcileFailed c model = (c', out) →
  grows (m_Namespace model) (m_Name model) c c' ∧ status_effect c c' model out.
Proof.
  intros Hph. unfold reconcileFailed. split_matches; intros H;
    try (split; by_status_write);
    injection H as <- <-; (split; [apply grows_refl|]); try done.
  left. rewrite Hph. auto.
Qed.

(** The whole pass: on a missing Model nothing happens; on a stored one
    the cluster grows and the status changes in one of the ways of
    [status_effect]. *)
Lemma Reconcile_effect c ns name c' out :
  Reconcile c ns name = (c', out) →
  grows ns name c c'
  ∧ match models c !! (ns, name) with
    | None => c' = c ∧ out ≠ Panic
    | Some o => status_effect c c' (model_of ns name o) out
    end.
Proof.
  unfold Reconcile. destruct (GetModel c ns name) as [err|model] eqn:Hget.
  - intros H. assert (c' = c ∧ out ≠ Panic) as [-> Hout].
    { destruct (err_NotFound err); by injection H as <- <-. }
    split; [apply grows_refl|].
    destruct (models c !! (ns, name)) as [o|] eqn:Ho; [|done].
    destruct out; try done.
    destruct (err_NotFound err) eqn:Hnf; [|done].
    apply (GetModel_error _ _ _ _ Hget) in Hnf. congruence.
  - apply GetModel_inv in Hget as (o & Ho & ->). rewrite Ho. cbn zeta.
    change ns with (m_Namespace (model_of ns name o)) at 6.
    change name with (m_Name (model_of ns name o)) at 6.
    repeat case_bool_decide; intros HR;
      first [ exact (reconcilePending_effect _ _ _ _ HR)
            | by apply (reconcileDownloading_effect c (model_of ns name o))
            | by apply (reconcileReady_effect c (model_of ns name o))
            | by apply (reconcileFailed_effect c (model_of ns name o))
            | split; by_status_write ].
Qed.

(** X1: a pass only adds.  Whatever the pass does and however it ends,
    every claim and every Job that was there is still there, unchanged; no
    Model appears or disappears; spec and generation of every Model are as
    before, and so is the whole of every Model but the reconciled one. *)
Theorem pass_only_adds c ns name :
  let c' := (Reconcile c ns name).1 in
  (∀ k p, pvcs c !! k = Some p → pvcs c' !! k = Some p)
  ∧ (∀ k j, jobs c !! k = Some j → jobs c' !! k = Some j)
  ∧ (∀ k, models c !! k = None → models c' !! k = None)
  ∧ (∀ k o, models c !! k = Some o →
       ∃ o', models c' !! k = Some o'
             ∧ obj_Spec o' = obj_Spec o
             ∧ obj_Generation o' = obj_Generation o
             ∧ (k ≠ (ns, name) → o' = o)).
Proof.
  cbn zeta. destruct (Reconcile c ns name) as [c' out] eqn:HR.
  apply Reconcile_effect in HR as [(Hp & Hj & _ & _ & Hm) _]. cbn [fst].
  split; [intros k p Hk; by eapply lookup_weaken|].
  split; [intros k j Hk; by eapply lookup_weaken|].
  split; intros k.
  - intros Hk. specialize (Hm k). by rewrite Hk in Hm.
  - intros o Hk. specialize (Hm k). rewrite Hk in Hm.
    destruct Hm as (o' & ? & ? & ? & ?). eauto 10.
Qed.

(** X2: no status is written by a pass that does not end normally.  When
    the pass ends in an error or a panic, or finds no Model under the
    requested key, the stored Models are exactly as before. *)
Theorem abnormal_pass_writes_no_status c ns name c' out :
  Reconcile c ns name = (c', out) →
  (∀ d, out ≠ Requeue d) ∨ models c !! (ns, name) = None →
  models c' = models c.
Proof.
  intros HR Hab. apply Reconcile_effect in HR as [_ He].
  destruct (models c !! (ns, name)) as [o|] eqn:Ho.
  - destruct Hab as [Hout|?]; [|done].
    destruct out as [d| |]; [by destruct (Hout d)|exact He..].
  - by destruct He as [-> _].
Qed.

Lemma abnormal_pass_writes_no_status_witness :
  models (Reconcile Samples.fresh_hf_20K "default" "m1").1
  = models Samples.fresh_hf_20K.
Proof.
  apply (abnormal_pass_writes_no_status Samples.fresh_hf_20K "default" "m1"
           (Reconcile Samples.fresh_hf_20K "default" "m1").1 Panic);
    [reflexivity | left; discriminate].
Defined.

(** X3: a status that a pass writes is current.  If a pass that ends
    normally leaves a stored status other than the one it found, that
    status names the derived claim and carries the generation of the
    Model. *)
Theorem written_status_is_current c ns name c' d st :
  Reconcile c ns name = (c', Requeue d) →
  stored_status c' ns name = Some st →
  stored_status c ns name ≠ Some st →
  st_PVCName st = PVCName name
  ∧ ∃ o, models c !! (ns, name) = Some o
         ∧ st_ObservedGeneration st = obj_Generation o.
Proof.
  intros HR Hst Hnew. apply Reconcile_effect in HR as [_ He].
  destruct (models c !! (ns, name)) as [o|] eqn:Ho.
  - destruct He as [(Hm & _) | [(ph & msg & pr & Hw & _) | (msg & Hw & _)]].
    + unfold stored_status in *. by rewrite Hm in Hst.
    + cbn in Hw. rewrite Hw in Hst. injection Hst as <-. eauto.
    + cbn in Hw. rewrite Hw in Hst. injection Hst as <-. eauto.
  - destruct He as [-> _]. unfold stored_status in Hst. by rewrite Ho in Hst.
Qed.

Lemma written_status_is_current_witness :
  ∃ st, stored_status (Reconcile Samples.ready_no_claim "default" "m1").1 "default" "m1"
        = Some st
        ∧ st_PVCName st = PVCName "m1"
        ∧ ∃ o, models Samples.ready_no_claim !! ("default", "m1") = Some o
               ∧ st_ObservedGeneration st = obj_Generation o.
Proof.
  eexists. split; [reflexivity|].
  apply (written_status_is_current Samples.ready_no_claim "default" "m1"
           (Reconcile Samples.ready_no_claim "default" "m1").1 requeuePending);
    [reflexivity | reflexivity | by vm_compute].
Defined.

(** X4: the requeue delay follows the phase.  A pass that ends normally on
    a stored Model asks to be run again after the interval of the phase it
    leaves behind: 10 s for Pending, 15 s for Downloading, 5 min for Ready,
    1 min for Failed; never at once and never not at all. *)
Theorem requeue_follows_phase c ns name c' d st :
  Reconcile c ns name = (c', Requeue d) →
  stored_status c' ns name = Some st →
  d = requeue_for (st_Phase st)
  ∧ (0 < d)%Z
  ∧ ((st_Phase st = ModelPhasePending ∧ d = 10 * Second)
     ∨ (st_Phase st = ModelPhaseDownloading ∧ d = 15 * Second)
     ∨ (st_Phase st = ModelPhaseReady ∧ d = 300 * Second)
     ∨ (st_Phase st = ModelPhaseFailed ∧ d = 60 * Second))%Z.
Proof.
  intros HR Hst. apply Reconcile_effect in HR as [_ He].
  assert (Hvalid : ∀ ph, valid_phase ph →
    (0 < requeue_for ph)%Z
    ∧ ((ph = ModelPhasePending ∧ requeue_for ph = 10 * Second)
       ∨ (ph = ModelPhaseDownloading ∧ requeue_for ph = 15 * Second)
       ∨ (ph = ModelPhaseReady ∧ requeue_for ph = 300 * Second)
       ∨ (ph = ModelPhaseFailed ∧ requeue_for ph = 60 * Second))%Z).
  { intros ph [-> | [-> | [-> | ->]]]; (split; [done|]); tauto. }
  destruct (models c !! (ns, name)) as [o|] eqn:Ho.
  - destruct He as [(Hm & -> & Hph) | [(ph & msg & pr & Hw & -> & Hv & _)
                                      | (msg & Hw & -> & Hph)]].
    + unfold stored_status in Hst. rewrite Hm, Ho in Hst. injection Hst as <-.
      cbn in *. split; [done|]. apply Hvalid. unfold valid_phase. tauto.
    + cbn in Hw. rewrite Hw in Hst. injection Hst as <-. cbn.
      split; [done|]. by apply Hvalid.
    + cbn in Hw. rewrite Hw in Hst. injection Hst as <-. cbn in *. rewrite Hph.
      split; [done|].
      apply (Hvalid ModelPhaseDownloading). unfold valid_phase. tauto.
  - destruct He as [-> _]. unfold stored_status in Hst. by rewrite Ho in Hst.
Qed.

Lemma requeue_follows_phase_witness :
  ∃ st, stored_status (Reconcile Samples.fresh_hf "default" "m1").1 "default" "m1"
        = Some st
        ∧ st_Phase st = ModelPhaseDownloading
        ∧ requeueDownloading = requeue_for (st_Phase st)
        ∧ (0 < requeueDownloading)%Z.
Proof.
  eexists. split; [reflexivity|]. split; [reflexivity|].
  destruct (requeue_follows_phase Samples.fresh_hf "default" "m1"
              (Reconcile Samples.fresh_hf "default" "m1").1 requeueDownloading
              _ eq_refl eq_refl) as (Hd & Hpos & _).
  split; [exact Hd | exact Hpos].
Defined.

(** X5: the progress is set on one edge only.  A pass that ends normally
    stores progress 100 when it takes the Model from Downloading to Ready
    and keeps the stored progress in every other case; the way back from
    Ready to Pending does not reset it. *)
Theorem progress_set_on_ready_only c ns name c' d st0 st :
  Reconcile c ns name = (c', Requeue d) →
  stored_status c ns name = Some st0 →
  stored_status c' ns name = Some st →
  st_Progress st = st_Progress st0
  ∨ (st_Progress st = 100%Z ∧ st_Phase st = ModelPhaseReady
     ∧ st_Phase st0 = ModelPhaseDownloading).
Proof.
  intros HR Hst0 Hst. apply Reconcile_effect in HR as [_ He].
  unfold stored_status in Hst0.
  destruct (models c !! (ns, name)) as [o|] eqn:Ho; [|done].
  injection Hst0 as <-.
  destruct He as [(Hm & _) | [(ph & msg & pr & Hw & _ & _ & Hpr) | (msg & Hw & _)]].
  - unfold stored_status in Hst. rewrite Hm, Ho in Hst. injection Hst as <-. by left.
  - cbn in Hw. rewrite Hw in Hst. injection Hst as <-. cbn in *.
    destruct Hpr as [-> | (-> & -> & ?)]; [by left | by right].
  - cbn in Hw. rewrite Hw in Hst. injection Hst as <-. by left.
Qed.

Lemma progress_set_on_ready_only_witness :
  (∃ st, stored_status
           (Reconcile (Samples.downloading_job Samples.succeeded_once) "default" "m1").1
           "default" "m1" = Some st
         ∧ st_Progress st = 100%Z ∧ st_Phase st = ModelPhaseReady).
Proof.
  eexists. split; [reflexivity|].
  destruct (progress_set_on_ready_only
              (Samples.downloading_job Samples.succeeded_once) "default" "m1"
              (Reconcile (Samples.downloading_job Samples.succeeded_once)
                 "default" "m1").1
              requeueReady _ _ eq_refl eq_refl eq_refl) as [Hsame | (H100 & Hph & _)].
  - split; reflexivity.
  - split; [exact H100 | exact Hph].
Defined.

End EffectFacts.



(** ** Errors on creation, and passes in sequence *)
Section LifecycleFacts.
Import API K8s Naming Resources Controller Effects.

Lemma Reconcile_fetched c ns name o :
  faults c OpGetModel = None → models c !! (ns, name) = Some o →
  st_Phase (obj_Status o) = "" ∨ st_Phase (obj_Status o) = ModelPhasePending →
  Reconcile c ns name = reconcilePending c (model_of ns name o).
Proof.
  intros Hf Ho Hph. unfold Reconcile, GetModel. rewrite Hf, Ho.
  cbn [m_Status model_of]. by destruct Hph as [-> | ->].
Qed.

Lemma healthy_of_faults c c' : faults c' = faults c → healthy c → healthy c'.
Proof. intros Hf Hh op. by rewrite Hf. Qed.

(** X6: a claim that cannot be created keeps the Model Pending.  When the
    claim is missing and the API server refuses to create it, the pass
    reports the refusal in the status message, leaves the phase Pending (not
    Failed), creates no Job and asks to be run again after the Pending
    interval. *)
Theorem claim_creation_error c ns name o q msg :
  healthy_but OpCreatePVC c → faults c OpCreatePVC = Some msg →
  models c !! (ns, name) = Some o →
  st_Phase (obj_Status o) = "" ∨ st_Phase (obj_Status o) = ModelPhasePending →
  ParseQuantity (Size (Storage (obj_Spec o))) = Some q →
  pvcs c !! (ns, PVCName name) = None →
  ∃ c' st, Reconcile c ns name = (c', Requeue requeuePending)
           ∧ stored_status c' ns name = Some st
           ∧ st_Phase st = ModelPhasePending
           ∧ st_Message st = "Failed to create PVC: " +:+ msg
           ∧ pvcs c' = pvcs c ∧ jobs c' = jobs c.
Proof.
  intros Hh Hf Ho Hph Hq Hp.
  rewrite (Reconcile_fetched _ _ _ _ (Hh OpGetModel ltac:(done)) Ho Hph).
  unfold reconcilePending.
  destruct (BuildPVC_built (model_of ns name o) q Hq) as (pvc & -> & Hn & Hns).
  unfold OwnPVC. rewrite (Hh OpOwnPVC) by done. cbn [pvc_Name pvc_Namespace].
  unfold GetPVC. rewrite (Hh OpGetPVC) by done. rewrite Hn, Hns. cbn [m_Name m_Namespace model_of].
  rewrite Hp. cbn [err_NotFound NewNotFound].
  unfold CreatePVC. rewrite Hf.
  destruct (updateStatus_ok c (model_of ns name o) ModelPhasePending
              ("Failed to create PVC: " +:+ err_Msg (Errorf msg))
              (Hh OpUpdateStatus ltac:(done)))
    as (c' & -> & Hst & Hpvcs & Hjobs); [cbn; eauto|].
  eexists c', _. split; [done|]. split; [exact Hst|]. done.
Qed.

Lemma claim_creation_error_witness :
  ∃ c' st, Reconcile Scenarios.no_quota_for_claims "default" "m1"
           = (c', Requeue requeuePending)
           ∧ stored_status c' "default" "m1" = Some st
           ∧ st_Phase st = ModelPhasePending
           ∧ st_Message st = "Failed to create PVC: exceeded quota"
           ∧ pvcs c' = pvcs Scenarios.no_quota_for_claims
           ∧ jobs c' = jobs Scenarios.no_quota_for_claims.
Proof.
  apply (claim_creation_error Scenarios.no_quota_for_claims "default" "m1"
           (Samples.object_of (Samples.spec_of Samples.source_hf "20Gi") empty_status)
           {| q_text := "20Gi" |} "exceeded quota").
  - intros [] Hne; first [reflexivity | by destruct Hne].
  - reflexivity.
  - reflexivity.
  - left; reflexivity.
  - reflexivity.
  - reflexivity.
Defined.

(** X7: a Job that cannot be created keeps the Model Pending as well.  The
    claim is there after the pass, no Job is, the message reports the
    refusal and the pass asks for the Pending interval. *)
Theorem job_creation_error c ns name o q msg :
  healthy_but OpCreateJob c → faults c OpCreateJob = Some msg →
  models c !! (ns, name) = Some o →
  st_Phase (obj_Status o) = "" ∨ st_Phase (obj_Status o) = ModelPhasePending →
  ParseQuantity (Size (Storage (obj_Spec o))) = Some q →
  populated (Source (obj_Spec o)) ≠ 0%nat →
  jobs c !! (ns, JobName name) = None →
  ∃ c' st, Reconcile c ns name = (c', Requeue requeuePending)
           ∧ stored_status c' ns name = Some st
           ∧ st_Phase st = ModelPhasePending
           ∧ st_Message st = "Failed to create Job: " +:+ msg
           ∧ is_Some (pvcs c' !! (ns, PVCName name))
           ∧ jobs c' = jobs c.
Proof.
  intros Hh Hf Ho Hph Hq Hsrc Hj.
  rewrite (Reconcile_fetched _ _ _ _ (Hh OpGetModel ltac:(done)) Ho Hph).
  set (model := model_of ns name o).
  assert (Hjob : ∀ c1, faults c1 = faults c → models c1 = models c → jobs c1 = jobs c →
    ∃ c' st, pending_job c1 model = (c', Requeue requeuePending)
             ∧ stored_status c' ns name = Some st
             ∧ st_Phase st = ModelPhasePending
             ∧ st_Message st = "Failed to create Job: " +:+ msg
             ∧ pvcs c' = pvcs c1 ∧ jobs c' = jobs c).
  { intros c1 Hf1 Hm1 Hj1. unfold pending_job.
    destruct (BuildDownloadJob_built model Hsrc) as (job & -> & Hn & Hns).
    unfold OwnJob. rewrite Hf1, (Hh OpOwnJob) by done. cbn [job_Name job_Namespace].
    unfold GetJob. rewrite Hf1, (Hh OpGetJob) by done. rewrite Hn, Hns, Hj1.
    cbn [m_Name m_Namespace model model_of]. rewrite Hj.
    cbn [err_NotFound NewNotFound]. unfold CreateJob. rewrite Hf1, Hf.
    destruct (updateStatus_ok c1 model ModelPhasePending
                ("Failed to create Job: " +:+ err_Msg (Errorf msg)))
      as (c' & -> & Hst & Hpvcs & Hjobs).
    { rewrite Hf1. by apply Hh. }
    { cbn. rewrite Hm1, Ho. eauto. }
    eexists c', _. split; [done|]. split; [exact Hst|]. rewrite Hjobs. done. }
  unfold reconcilePending.
  destruct (BuildPVC_built model q Hq) as (pvc & -> & Hn & Hns).
  unfold OwnPVC. rewrite (Hh OpOwnPVC) by done. cbn [pvc_Name pvc_Namespace].
  unfold GetPVC. rewrite (Hh OpGetPVC) by done. rewrite Hn, Hns.
  cbn [m_Name m_Namespace model model_of].
  destruct (pvcs c !! (ns, PVCName name)) as [p|] eqn:Hp.
  - destruct (Hjob c eq_refl eq_refl eq_refl) as (c' & st & -> & Hst & ? & ? & Hpv & ?).
    exists c', st. rewrite Hpv, Hp. eauto 10.
  - cbn [err_NotFound NewNotFound]. unfold CreatePVC.
    rewrite (Hh OpCreatePVC) by done. cbn [pvc_Name pvc_Namespace].
    rewrite ?Hn, ?Hns. cbn [m_Name m_Namespace model model_of]. rewrite Hp.
    match goal with |- context [pending_job ?c1 model] =>
      destruct (Hjob c1 eq_refl eq_refl eq_refl)
        as (c' & st & -> & Hst & ? & ? & Hpv & ?) end.
    exists c', st. rewrite Hpv. cbn. rewrite lookup_insert_eq. eauto 10.
Qed.

Lemma job_creation_error_witness :
  ∃ c' st, Reconcile Scenarios.no_quota_for_jobs "default" "m1"
           = (c', Requeue requeuePending)
           ∧ stored_status c' "default" "m1" = Some st
           ∧ st_Phase st = ModelPhasePending
           ∧ st_Message st = "Failed to create Job: exceeded quota"
           ∧ is_Some (pvcs c' !! ("default", PVCName "m1"))
           ∧ jobs c' = jobs Scenarios.no_quota_for_jobs.
Proof.
  apply (job_creation_error Scenarios.no_quota_for_jobs "default" "m1"
           (Samples.object_of (Samples.spec_of Samples.source_hf "20Gi") empty_status)
           {| q_text := "20Gi" |} "exceeded quota").
  - intros [] Hne; first [reflexivity | by destruct Hne].
  - reflexivity.
  - reflexivity.
  - left; reflexivity.
  - reflexivity.
  - discriminate.
  - reflexivity.
Defined.

(** *** Passes in sequence *)

(** An existing Job is left alone by the second half of the Pending pass. *)
Lemma pending_job_kept c model j :
  healthy c →
  is_Some (models c !! (m_Namespace model, m_Name model)) →
  populated (Source (m_Spec model)) ≠ 0%nat →
  jobs c !! (m_Namespace model, JobName (m_Name model)) = Some j →
  ∃ c', pending_job c model = (c', Requeue requeueDownloading) ∧ jobs c' = jobs c.
Proof.
  intros Hh Hm Hsrc Hj. unfold pending_job.
  destruct (BuildDownloadJob_built model Hsrc) as (job & -> & Hn & Hns).
  destruct (OwnJob_healthy c model job Hh) as (job' & -> & Hn' & Hns').
  rewrite (GetJob_healthy _ _ _ Hh), Hn', Hns', Hn, Hns, Hj.
  destruct (updateStatus_ok c model ModelPhaseDownloading "Download started"
              (Hh _) Hm) as (c' & -> & _ & _ & Hjobs).
  eauto.
Qed.

(** The Pending pass in full, for a Model with a source. *)
Lemma pending_pass c ns name o q :
  healthy c → models c !! (ns, name) = Some o →
  st_Phase (obj_Status o) = "" ∨ st_Phase (obj_Status o) = ModelPhasePending →
  ParseQuantity (Size (Storage (obj_Spec o))) = Some q →
  populated (Source (obj_Spec o)) ≠ 0%nat →
  ∃ c', Reconcile c ns name = (c', Requeue requeueDownloading)
        ∧ stored_status c' ns name
          = Some (next_status (clock c) (model_of ns name o) ModelPhaseDownloading
                    "Download started" (st_Progress (obj_Status o)))
        ∧ healthy c'
        ∧ is_Some (pvcs c' !! (ns, PVCName name))
        ∧ is_Some (jobs c' !! (ns, JobName name))
        ∧ (is_Some (jobs c !! (ns, JobName name)) → jobs c' = jobs c).
Proof.
  intros Hh Ho Hph Hq Hsrc.
  destruct (Reconcile c ns name) as [c' out] eqn:HR.
  pose proof (Reconcile_effect _ _ _ _ _ HR) as [(_ & _ & _ & Hfaults & _) _].
  rewrite (Reconcile_pending _ _ _ _ Hh Ho Hph) in HR.
  destruct (reconcilePending_claim c (model_of ns name o) q Hh Hq)
    as (c1 & Heq & Hh1 & Hm1 & Hj1 & Hc1 & Hp1).
  rewrite Heq in HR.
  assert (Hm : is_Some (models c1 !! (m_Namespace (model_of ns name o),
                                      m_Name (model_of ns name o))))
    by (cbn; rewrite Hm1, Ho; eauto).
  destruct (pending_job_with_source c1 (model_of ns name o) Hh1 Hm Hsrc)
    as (c2 & HR2 & Hst & Hp2 & Hj2).
  rewrite HR2 in HR. injection HR as <- <-.
  exists c2. split; [done|]. cbn in Hst. rewrite Hc1 in Hst. split; [exact Hst|].
  split; [by apply (healthy_of_faults c)|].
  cbn in Hp1, Hj2. rewrite Hp2. split; [done|]. split; [done|].
  intros [j Hj]. rewrite <- Hj1 in Hj.
  destruct (pending_job_kept c1 (model_of ns name o) j Hh1 Hm Hsrc Hj) as (c3 & HR3 & Hj3).
  rewrite HR3 in HR2. injection HR2 as ->. congruence.
Qed.

(** The Downloading pass on a Job that has succeeded. *)
Lemma succeeded_pass c ns name o job :
  healthy c → models c !! (ns, name) = Some o →
  st_Phase (obj_Status o) = ModelPhaseDownloading →
  jobs c !! (ns, JobName name) = Some job →
  (0 < js_Succeeded (job_Status job))%Z →
  ∃ c', Reconcile c ns name = (c', Requeue requeueReady)
        ∧ stored_status c' ns name
          = Some (next_status (clock c) (model_of ns name o) ModelPhaseReady
                    "Download complete" 100)
        ∧ pvcs c' = pvcs c ∧ jobs c' = jobs c.
Proof.
  intros Hh Ho Hph Hj Hs.
  rewrite (Reconcile_downloading _ _ _ _ Hh Ho Hph). unfold reconcileDownloading.
  rewrite (GetJob_healthy _ _ _ Hh). cbn [m_Name m_Namespace model_of]. rewrite Hj.
  apply Z.ltb_lt in Hs. rewrite Hs.
  destruct (updateStatusWithProgress_ok c (model_of ns name o) ModelPhaseReady
              "Download complete" 100 (Hh _)) as (c' & -> & Hst & Hp & Hjobs);
    [cbn; eauto|].
  eauto 10.
Qed.

(** X8: from a new Model to Ready in two passes.  After the first pass on
    a Model with a source and a valid size the claim exists; once the Job
    reports a success, the next pass makes the Model Ready, with progress
    100, the claim name in the status and a Ready condition that is True. *)
Theorem download_lifecycle c ns name o q c2 job :
  healthy c → models c !! (ns, name) = Some o →
  st_Phase (obj_Status o) = "" ∨ st_Phase (obj_Status o) = ModelPhasePending →
  ParseQuantity (Size (Storage (obj_Spec o))) = Some q →
  populated (Source (obj_Spec o)) ≠ 0%nat →
  let c1 := (Reconcile c ns name).1 in
  healthy c2 → models c2 = models c1 → pvcs c2 = pvcs c1 →
  jobs c2 !! (ns, JobName name) = Some job →
  (0 < js_Succeeded (job_Status job))%Z →
  ∃ st cond,
    stored_status (Reconcile c2 ns name).1 ns name = Some st
    ∧ st_Phase st = ModelPhaseReady
    ∧ st_Progress st = 100%Z
    ∧ st_PVCName st = PVCName name
    ∧ is_Some (pvcs (Reconcile c2 ns name).1 !! (ns, st_PVCName st))
    ∧ FindStatusCondition (st_Conditions st) conditionTypeReady = Some cond
    ∧ cond_Status cond = ConditionTrue.
Proof.
  intros Hh Ho Hph Hq Hsrc c1 Hh2 Hm2 Hp2 Hj Hs.
  destruct (pending_pass c ns name o q Hh Ho Hph Hq Hsrc)
    as (c1' & HR1 & Hst1 & _ & Hp1 & _).
  subst c1. rewrite HR1 in Hm2, Hp2. cbn [fst] in Hm2, Hp2.
  unfold stored_status in Hst1. rewrite <- Hm2 in Hst1.
  destruct (models c2 !! (ns, name)) as [o2|] eqn:Ho2; [|done].
  injection Hst1 as Hst1.
  destruct (succeeded_pass c2 ns name o2 job Hh2 Ho2) as (c3 & -> & Hst3 & Hp3 & _);
    [by rewrite Hst1 | done | done |].
  destruct (SetStatusCondition_found (clock c2) (st_Conditions (obj_Status o2))
              (ready_condition (clock c2) (model_of ns name o2) ModelPhaseReady
                 "Download complete") (clock c2) eq_refl)
    as (cond & Hfind & Hstatus & _).
  eexists _, cond. split; [exact Hst3|]. cbn.
  rewrite Hp3, Hp2. done.
Qed.

Lemma download_lifecycle_witness :
  ∃ st cond,
    stored_status (Reconcile Scenarios.job_succeeded "default" "m1").1 "default" "m1"
    = Some st
    ∧ st_Phase st = ModelPhaseReady
    ∧ st_Progress st = 100%Z
    ∧ st_PVCName st = PVCName "m1"
    ∧ is_Some (pvcs (Reconcile Scenarios.job_succeeded "default" "m1").1
               !! ("default", st_PVCName st))
    ∧ FindStatusCondition (st_Conditions st) conditionTypeReady = Some cond
    ∧ cond_Status cond = ConditionTrue.
Proof.
  apply (download_lifecycle Samples.fresh_hf "default" "m1"
           (Samples.object_of (Samples.spec_of Samples.source_hf "20Gi") empty_status)
           {| q_text := "20Gi" |} Scenarios.job_succeeded
           (Samples.job_with Samples.succeeded_once)).
  - intros op; reflexivity.
  - reflexivity.
  - left; reflexivity.
  - reflexivity.
  - discriminate.
  - intros op; reflexivity.
  - reflexivity.
  - reflexivity.
  - reflexivity.
  - reflexivity.
Defined.

(** What is stored after a normal pass that wrote through
    [updateStatus]: the same Model with the new status, in a cluster that
    is served as before. *)
Lemma reset_to_pending c ns name o message c1 d :
  healthy c → models c !! (ns, name) = Some o →
  Reconcile c ns name = (c1, Requeue d) →
  Reconcile c ns name
  = updateStatus c (model_of ns name o) ModelPhasePending message →
  ∃ o1, models c1 !! (ns, name) = Some o1
        ∧ obj_Spec o1 = obj_Spec o
        ∧ st_Phase (obj_Status o1) = ModelPhasePending
        ∧ healthy c1 ∧ pvcs c1 = pvcs c ∧ jobs c1 = jobs c.
Proof.
  intros Hh Ho HR Heq.
  pose proof (Reconcile_effect _ _ _ _ _ HR) as [(_ & _ & _ & Hfaults & Hm) _].
  rewrite Heq in HR.
  apply updateStatus_inv in HR as [[_ [e ?]] | (_ & Hst & Hp & Hj)]; [done|].
  specialize (Hm (ns, name)). rewrite Ho in Hm.
  destruct Hm as (o1 & Ho1 & _ & Hspec & _).
  exists o1. split; [done|]. split; [done|].
  cbn in Hst. unfold stored_status in Hst. rewrite Ho1 in Hst.
  injection Hst as Hst. rewrite Hst.
  split; [done|]. split; [by apply (healthy_of_faults c)|]. done.
Qed.

(** X9: retrying a failed download.  When the Job of a Failed Model has
    been deleted, the next pass sets the Model back to Pending and the pass
    after that creates a new Job and the Model is Downloading again. *)
Theorem retry_after_failure c ns name o q :
  healthy c → models c !! (ns, name) = Some o →
  st_Phase (obj_Status o) = ModelPhaseFailed →
  jobs c !! (ns, JobName name) = None →
  ParseQuantity (Size (Storage (obj_Spec o))) = Some q →
  populated (Source (obj_Spec o)) ≠ 0%nat →
  let c1 := (Reconcile c ns name).1 in
  let c2 := (Reconcile c1 ns name).1 in
  stored_phase c1 ns name = Some ModelPhasePending
  ∧ jobs c1 = jobs c
  ∧ stored_phase c2 ns name = Some ModelPhaseDownloading
  ∧ is_Some (jobs c2 !! (ns, JobName name))
  ∧ is_Some (pvcs c2 !! (ns, PVCName name)).
Proof.
  intros Hh Ho Hph Hj Hq Hsrc c1 c2.
  assert (Heq : Reconcile c ns name
                = updateStatus c (model_of ns name o) ModelPhasePending
                    "Retrying download").
  { rewrite (Reconcile_failed _ _ _ _ Hh Ho Hph). unfold reconcileFailed.
    rewrite (GetJob_healthy _ _ _ Hh). cbn [m_Name m_Namespace model_of].
    by rewrite Hj. }
  destruct (updateStatus_ok c (model_of ns name o) ModelPhasePending
              "Retrying download" (Hh _)) as (c1' & HR1 & _); [cbn; eauto|].
  rewrite <- Heq in HR1.
  destruct (reset_to_pending c ns name o _ c1' _ Hh Ho HR1 Heq)
    as (o1 & Ho1 & Hspec & Hph1 & Hh1 & Hp1 & Hj1).
  subst c2 c1. rewrite HR1. cbn [fst].
  destruct (pending_pass c1' ns name o1 q Hh1 Ho1) as (c2' & -> & Hst2 & _ & Hp2 & Hj2 & _);
    [by right | by rewrite Hspec | by rewrite Hspec |].
  cbn [fst]. unfold stored_phase at 1. unfold stored_status at 1. rewrite Ho1. cbn.
  rewrite Hph1. split; [done|]. split; [done|].
  unfold stored_phase. rewrite Hst2. done.
Qed.

Lemma retry_after_failure_witness :
  let c1 := (Reconcile Samples.failed_no_job "default" "m1").1 in
  let c2 := (Reconcile c1 "default" "m1").1 in
  stored_phase c1 "default" "m1" = Some ModelPhasePending
  ∧ jobs c1 = jobs Samples.failed_no_job
  ∧ stored_phase c2 "default" "m1" = Some ModelPhaseDownloading
  ∧ is_Some (jobs c2 !! ("default", JobName "m1"))
  ∧ is_Some (pvcs c2 !! ("default", PVCName "m1")).
Proof.
  apply (retry_after_failure Samples.failed_no_job "default" "m1"
           Samples.failed_object {| q_text := "20Gi" |}).
  - intros op; reflexivity.
  - reflexivity.
  - reflexivity.
  - reflexivity.
  - reflexivity.
  - discriminate.
Defined.

(** X10: recovery next to a finished Job.  When the claim of a Ready Model
    has been deleted while its finished Job is still there, three passes
    take the Model through Pending and Downloading back to Ready: the claim
    is created anew, and no Job is created or changed, the success of the
    old Job being taken for the new claim. *)
Theorem recovery_reuses_finished_job c ns name o q job :
  healthy c → models c !! (ns, name) = Some o →
  st_Phase (obj_Status o) = ModelPhaseReady →
  pvcs c !! (ns, PVCName name) = None →
  jobs c !! (ns, JobName name) = Some job →
  (0 < js_Succeeded (job_Status job))%Z →
  ParseQuantity (Size (Storage (obj_Spec o))) = Some q →
  populated (Source (obj_Spec o)) ≠ 0%nat →
  let c1 := (Reconcile c ns name).1 in
  let c2 := (Reconcile c1 ns name).1 in
  let c3 := (Reconcile c2 ns name).1 in
  stored_phase c1 ns name = Some ModelPhasePending
  ∧ stored_phase c2 ns name = Some ModelPhaseDownloading
  ∧ stored_phase c3 ns name = Some ModelPhaseReady
  ∧ is_Some (pvcs c3 !! (ns, PVCName name))
  ∧ jobs c3 = jobs c.
Proof.
  intros Hh Ho Hph Hp Hj Hs Hq Hsrc c1 c2 c3.
  assert (Heq : Reconcile c ns name
                = updateStatus c (model_of ns name o) ModelPhasePending
                    "PVC was deleted, recreating").
  { rewrite (Reconcile_ready _ _ _ _ Hh Ho Hph). unfold reconcileReady.
    rewrite (GetPVC_healthy _ _ _ Hh). cbn [m_Name m_Namespace model_of].
    by rewrite Hp. }
  destruct (updateStatus_ok c (model_of ns name o) ModelPhasePending
              "PVC was deleted, recreating" (Hh _)) as (c1' & HR1 & _); [cbn; eauto|].
  rewrite <- Heq in HR1.
  destruct (reset_to_pending c ns name o _ c1' _ Hh Ho HR1 Heq)
    as (o1 & Ho1 & Hspec & Hph1 & Hh1 & Hp1 & Hj1).
  subst c3 c2 c1. rewrite HR1. cbn [fst].
  destruct (pending_pass c1' ns name o1 q Hh1 Ho1)
    as (c2' & HR2 & Hst2 & Hh2 & Hp2 & _ & Hkept);
    [by right | by rewrite Hspec | by rewrite Hspec |].
  rewrite HR2. cbn [fst].
  assert (Hj2 : jobs c2' = jobs c).
  { rewrite Hkept; [done|]. rewrite Hj1, Hj. eauto. }
  pose proof Hst2 as Hst2'. unfold stored_status in Hst2'.
  destruct (models c2' !! (ns, name)) as [o2|] eqn:Ho2; [|done].
  injection Hst2' as Hst2'.
  destruct (succeeded_pass c2' ns name o2 job Hh2 Ho2)
    as (c3' & -> & Hst3 & Hp3 & Hj3);
    [by rewrite Hst2' | by rewrite Hj2 | done |].
  cbn [fst]. split.
  { unfold stored_phase, stored_status. rewrite Ho1. cbn. by rewrite Hph1. }
  split; [unfold stored_phase; by rewrite Hst2|].
  split; [unfold stored_phase; by rewrite Hst3|].
  rewrite Hp3, Hj3. done.
Qed.

Lemma recovery_reuses_finished_job_witness :
  let c1 := (Reconcile Scenarios.ready_claim_gone_job_kept "default" "m1").1 in
  let c2 := (Reconcile c1 "default" "m1").1 in
  let c3 := (Reconcile c2 "default" "m1").1 in
  stored_phase c1 "default" "m1" = Some ModelPhasePending
  ∧ stored_phase c2 "default" "m1" = Some ModelPhaseDownloading
  ∧ stored_phase c3 "default" "m1" = Some ModelPhaseReady
  ∧ is_Some (pvcs c3 !! ("default", PVCName "m1"))
  ∧ jobs c3 = jobs Scenarios.ready_claim_gone_job_kept.
Proof.
  apply (recovery_reuses_finished_job Scenarios.ready_claim_gone_job_kept
           "default" "m1" Samples.ready_object {| q_text := "20Gi" |}
           (Samples.job_with Samples.succeeded_once)).
  - intros op; reflexivity.
  - reflexivity.
  - reflexivity.
  - reflexivity.
  - reflexivity.
  - reflexivity.
  - reflexivity.
  - discriminate.
Defined.

End LifecycleFacts.



(** ** What the mutator adds, and what it leaves alone *)
Section InjectionFacts.
Import API K8s Naming GoStrings Webhook Injection.

Lemma extends_container_refl c : extends_container c c.
Proof. by repeat split. Qed.

Lemma extends_container_trans c1 c2 c3 :
  extends_container c1 c2 → extends_container c2 c3 → extends_container c1 c3.
Proof.
  intros (Hn1 & Hm1 & He1) (Hn2 & Hm2 & He2).
  split; [congruence|]. split; by etrans.
Qed.

Lemma extends_pod_refl pod : extends_pod pod pod.
Proof.
  repeat split; try done. apply Forall2_same_length_lookup_2; [done|].
  intros i x y Hx Hy. rewrite Hx in Hy. injection Hy as <-.
  apply extends_container_refl.
Qed.

Lemma extends_pod_trans p1 p2 p3 :
  extends_pod p1 p2 → extends_pod p2 p3 → extends_pod p1 p3.
Proof.
  intros (Hl1 & Ha1 & Hv1 & Hc1) (Hl2 & Ha2 & Hv2 & Hc2).
  split; [congruence|]. split; [congruence|]. split; [by etrans|].
  eapply Forall2_trans; [|exact Hc1|exact Hc2].
  intros x y z. apply extends_container_trans.
Qed.

(** Replacing one container by an extension of it extends the list. *)
Lemma extends_insert (cs : list Container) (i : nat) x y :
  cs !! i = Some x → extends_container x y →
  Forall2 extends_container cs (<[i := y]> cs).
Proof.
  intros Hi Hxy. apply Forall2_same_length_lookup_2; [by rewrite length_insert|].
  intros j a b Ha Hb. destruct (decide (i = j)) as [->|Hne].
  - rewrite list_lookup_insert_eq in Hb by (by eapply lookup_lt_Some).
    injection Hb as <-. rewrite Hi in Ha. by injection Ha as <-.
  - rewrite list_lookup_insert_ne in Hb by done. rewrite Ha in Hb.
    injection Hb as <-. apply extends_container_refl.
Qed.

Lemma injectVolume_extends pod model : extends_pod pod (injectVolume pod model).
Proof.
  unfold injectVolume. destruct (existsb _ _); [apply extends_pod_refl|].
  split; [done|]. split; [done|]. split; [by eexists|].
  apply (extends_pod_refl pod).
Qed.

Lemma injectVolumeMount_extends pod model opts pod' :
  injectVolumeMount pod model opts = inr pod' → extends_pod pod pod'.
Proof.
  unfold injectVolumeMount. case_bool_decide; [done|].
  match goal with |- context [match ?t with _ => _ end] => destruct t as [i|] end;
    [|done].
  destruct (Containers pod !! i) as [x|] eqn:Hi;
    [|intros [= <-]; apply extends_pod_refl].
  destruct (existsb _ _); intros [= <-]; [apply extends_pod_refl|].
  split; [done|]. split; [done|]. split; [done|]. cbn.
  apply (extends_insert _ _ x); [done|].
  split; [done|]. split; [by eexists | done].
Qed.

Lemma injectEnvVars_extends pod model opts pod' :
  injectEnvVars pod model opts = inr pod' → extends_pod pod pod'.
Proof.
  unfold injectEnvVars. case_bool_decide; [done|].
  match goal with |- context [Containers pod !! ?i] =>
    destruct (Containers pod !! i) as [x|] eqn:Hi end;
    intros [= <-]; [|apply extends_pod_refl].
  split; [done|]. split; [done|]. split; [done|]. cbn.
  apply (extends_insert _ _ x); [done|].
  split; [done|]. split; [done | by eexists].
Qed.

Lemma inject_one_extends c ns opts n pod pod' :
  inject_one c ns opts n pod = inr pod' → extends_pod pod pod'.
Proof.
  unfold inject_one. destruct (GetModel c ns n) as [err|model]; [done|].
  case_bool_decide; [done|].
  pose proof (injectVolume_extends pod model) as H1.
  destruct (injectVolumeMount _ model opts) as [err|pod1] eqn:Hmount; [done|].
  apply injectVolumeMount_extends in Hmount.
  destruct (InjectEnv opts).
  - destruct (injectEnvVars pod1 model opts) as [err|pod2] eqn:Henv; [done|].
    apply injectEnvVars_extends in Henv. intros [= <-].
    eapply extends_pod_trans; [|exact Henv]. by eapply extends_pod_trans.
  - intros [= <-]. by eapply extends_pod_trans.
Qed.

Lemma inject_all_extends c ns opts fields pod pod' :
  inject_all c ns opts fields pod = inr pod' → extends_pod pod pod'.
Proof.
  revert pod. induction fields as [|field fields IH]; intros pod; cbn [inject_all].
  { intros [= <-]. apply extends_pod_refl. }
  case_bool_decide; [apply IH|].
  destruct (inject_one c ns opts (TrimSpace field) pod) as [resp|pod1] eqn:Hone; [done|].
  intros Hall. apply inject_one_extends in Hone. apply IH in Hall.
  by eapply extends_pod_trans.
Qed.

(** X11: injection only appends.  The workload the handler's patch leads to
    has the annotations it came with, its labels plus the marker, its
    volumes in their order followed by the added ones, and the same
    containers in the same order, each with its mounts and variables
    followed by the added ones; nothing is removed, replaced or reordered. *)
Theorem injection_only_appends c req pod pod' :
  req_Object req = inr pod →
  Patched (Handle c req) = Some pod' →
  Annotations pod' = Annotations pod
  ∧ Labels pod' = <[LabelInjected := "true"]> (Labels pod)
  ∧ (∃ added, Volumes pod' = (Volumes pod ++ added)%list)
  ∧ length (Containers pod') = length (Containers pod)
  ∧ ∀ i x, Containers pod !! i = Some x →
      ∃ y, Containers pod' !! i = Some y
           ∧ c_Name y = c_Name x
           ∧ (∃ mounts, c_VolumeMounts y = (c_VolumeMounts x ++ mounts)%list)
           ∧ (∃ vars, c_Env y = (c_Env x ++ vars)%list).
Proof.
  intros Hobj. unfold Handle. rewrite Hobj.
  case_bool_decide; [done|].
  destruct (Annotations pod !! AnnotationInject) as [a|]; [|done].
  case_bool_decide; [done|].
  destruct (inject_all _ _ _ _ _) as [resp|pod1] eqn:Hall.
  { intros Hp. by rewrite (inject_all_denied _ _ _ _ _ _ Hall) in Hp. }
  apply inject_all_extends in Hall as (Hl & Ha & Hv & Hc).
  cbn. intros [= <-]. cbn. split; [done|]. split; [by rewrite Hl|].
  split; [exact Hv|]. split; [symmetry; by eapply Forall2_length|].
  intros i x Hx.
  destruct (Forall2_lookup_l _ _ _ _ _ Hc Hx) as (y & Hy & Hn & Hm & He).
  eauto 10.
Qed.

Lemma injection_only_appends_witness :
  ∃ pod',
    Patched (Handle Samples.ready_no_claim
               (Samples.request_for (Samples.pod_requesting "m1" [Samples.app])))
    = Some pod'
    ∧ Annotations pod' = Annotations (Samples.pod_requesting "m1" [Samples.app])
    ∧ length (Containers pod') = 1%nat.
Proof.
  destruct (Patched (Handle Samples.ready_no_claim
              (Samples.request_for (Samples.pod_requesting "m1" [Samples.app]))))
    as [pod'|] eqn:Hpatched; [|by vm_compute in Hpatched].
  exists pod'. split; [reflexivity|].
  destruct (injection_only_appends Samples.ready_no_claim
              (Samples.request_for (Samples.pod_requesting "m1" [Samples.app]))
              (Samples.pod_requesting "m1" [Samples.app]) pod' eq_refl Hpatched)
    as (Ha & _ & _ & Hlen & _).
  split; [exact Ha | exact Hlen].
Defined.

(** *** The selected container *)

Lemma extends_names pod pod' :
  extends_pod pod pod' → c_Name <$> Containers pod' = c_Name <$> Containers pod.
Proof.
  intros (_ & _ & _ & Hc). induction Hc as [|x y xs ys (Hn & _) _ IH]; [done|].
  cbn. by rewrite Hn, IH.
Qed.

Lemma target_index_names (cs cs' : list Container) opts :
  c_Name <$> cs = c_Name <$> cs' → target_index cs opts = target_index cs' opts.
Proof.
  intros Hn. unfold target_index. by rewrite (find_container_names cs cs').
Qed.

Lemma target_index_extends pod pod' opts :
  extends_pod pod pod' →
  target_index (Containers pod') opts = target_index (Containers pod) opts.
Proof. intros He. apply target_index_names. by apply extends_names. Qed.

Lemma injectVolumeMount_elsewhere pod model opts pod' i :
  injectVolumeMount pod model opts = inr pod' →
  i ≠ target_index (Containers pod) opts →
  Containers pod' !! i = Containers pod !! i.
Proof.
  unfold injectVolumeMount, target_index. case_bool_decide; [done|].
  case_bool_decide.
  - destruct (find_container _ _) as [j|]; [|done]. cbn.
    destruct (Containers pod !! j) as [x|]; [|by intros [= <-]].
    destruct (existsb _ _); intros [= <-]; [done|].
    intros Hne. cbn. by rewrite list_lookup_insert_ne.
  - destruct (Containers pod !! 0%nat) as [x|]; [|by intros [= <-]].
    destruct (existsb _ _); intros [= <-]; [done|].
    intros Hne. cbn. by rewrite list_lookup_insert_ne.
Qed.

Lemma injectEnvVars_elsewhere pod model opts pod' i :
  injectEnvVars pod model opts = inr pod' →
  i ≠ target_index (Containers pod) opts →
  Containers pod' !! i = Containers pod !! i.
Proof.
  unfold injectEnvVars. case_bool_decide; [done|]. fold (target_index (Containers pod) opts).
  destruct (Containers pod !! target_index (Containers pod) opts) as [x|];
    intros [= <-]; [|done].
  intros Hne. cbn. by rewrite list_lookup_insert_ne.
Qed.

Lemma inject_one_elsewhere c ns opts n pod pod' i :
  inject_one c ns opts n pod = inr pod' →
  i ≠ target_index (Containers pod) opts →
  Containers pod' !! i = Containers pod !! i.
Proof.
  unfold inject_one. destruct (GetModel c ns n) as [err|model]; [done|].
  case_bool_decide; [done|].
  destruct (injectVolume_same pod model) as [Hcs _].
  destruct (injectVolumeMount _ model opts) as [err|pod1] eqn:Hmount; [done|].
  intros Hone Hne.
  pose proof (injectVolumeMount_extends _ _ _ _ Hmount) as He1.
  apply (target_index_extends _ _ opts) in He1. rewrite Hcs in He1.
  pose proof (injectVolumeMount_elsewhere _ _ _ _ i Hmount) as H1.
  rewrite Hcs in H1. specialize (H1 Hne).
  destruct (InjectEnv opts).
  - destruct (injectEnvVars pod1 model opts) as [err|pod2] eqn:Henv; [done|].
    injection Hone as <-.
    rewrite (injectEnvVars_elsewhere _ _ _ _ i Henv) by (by rewrite He1). done.
  - by injection Hone as <-.
Qed.

Lemma inject_all_elsewhere c ns opts fields pod pod' i :
  inject_all c ns opts fields pod = inr pod' →
  i ≠ target_index (Containers pod) opts →
  Containers pod' !! i = Containers pod !! i.
Proof.
  revert pod. induction fields as [|field fields IH]; intros pod; cbn [inject_all].
  { by intros [= <-]. }
  case_bool_decide; [apply IH|].
  destruct (inject_one c ns opts (TrimSpace field) pod) as [resp|pod1] eqn:Hone; [done|].
  intros Hall Hne.
  pose proof (inject_one_extends _ _ _ _ _ _ Hone) as He.
  rewrite (IH pod1 Hall) by (by rewrite (target_index_extends pod pod1)).
  by apply (inject_one_elsewhere _ _ _ _ _ _ _ Hone).
Qed.

(** X12: only the selected container is touched.  Every container other
    than the one the container option names (the first one when there is no
    such option) is in the patched workload exactly as it came. *)
Theorem only_target_container_changes c req pod pod' i :
  req_Object req = inr pod →
  Patched (Handle c req) = Some pod' →
  i ≠ target_index (Containers pod) (parseOptions (Annotations pod)) →
  Containers pod' !! i = Containers pod !! i.
Proof.
  intros Hobj. unfold Handle. rewrite Hobj.
  case_bool_decide; [done|].
  destruct (Annotations pod !! AnnotationInject) as [a|]; [|done].
  case_bool_decide; [done|].
  destruct (inject_all _ _ _ _ _) as [resp|pod1] eqn:Hall.
  { intros Hp. by rewrite (inject_all_denied _ _ _ _ _ _ Hall) in Hp. }
  cbn. intros [= <-] Hne. cbn. by apply (inject_all_elsewhere _ _ _ _ _ _ _ Hall).
Qed.

(** *** Volumes and mounts *)

Lemma existsb_elem_of {A} (f : A → bool) (l : list A) :
  existsb f l = true ↔ ∃ x, x ∈ l ∧ f x = true.
Proof.
  rewrite existsb_exists. split; intros (x & Hx & Hf); exists x;
    (split; [by apply list_elem_of_In | done]).
Qed.

Lemma existsb_none {A} (f : A → bool) (l : list A) :
  existsb f l = false → ∀ x, x ∈ l → f x = false.
Proof.
  intros Hf x Hx. destruct (f x) eqn:Hfx; [|done].
  assert (existsb f l = true) by (apply existsb_elem_of; eauto). congruence.
Qed.

(** [injectVolume]: the volume is there already, or it is appended. *)
Lemma injectVolume_volumes pod model :
  (Volumes (injectVolume pod model) = Volumes pod
   ∧ ∃ v, v ∈ Volumes pod ∧ v_Name v = VolumeName (m_Name model))
  ∨ (Volumes (injectVolume pod model)
     = (Volumes pod ++ [model_volume (m_Name model)])%list
     ∧ ∀ v, v ∈ Volumes pod → v_Name v ≠ VolumeName (m_Name model)).
Proof.
  unfold injectVolume. destruct (existsb _ _) eqn:Hex.
  - left. split; [done|]. apply existsb_elem_of in Hex as (v & Hv & Hn).
    exists v. split; [done|]. by apply bool_decide_eq_true in Hn.
  - right. split; [done|]. intros v Hv.
    apply (existsb_none _ _ Hex) in Hv. by apply bool_decide_eq_false in Hv.
Qed.

(** [injectVolumeMount]: afterwards the selected container has the mount. *)
Lemma injectVolumeMount_mounted pod model opts pod' :
  injectVolumeMount pod model opts = inr pod' →
  Volumes pod' = Volumes pod
  ∧ ∃ c m, Containers pod' !! target_index (Containers pod) opts = Some c
           ∧ m ∈ c_VolumeMounts c ∧ vm_Name m = VolumeName (m_Name model).
Proof.
  unfold injectVolumeMount, target_index. case_bool_decide as Hlen; [done|].
  assert (Hstep : ∀ i x,
    Containers pod !! i = Some x →
    (if existsb (λ m, bool_decide (vm_Name m = VolumeName (m_Name model)))
          (c_VolumeMounts x)
     then inr pod
     else inr (with_containers pod
                 (<[i := add_mount {| vm_Name := VolumeName (m_Name model);
                                      vm_MountPath := mount_path_of_mount model opts;
                                      vm_ReadOnly := ReadOnly opts |} x]>
                    (Containers pod)))) = (inr pod' : Error + Pod) →
    Volumes pod' = Volumes pod
    ∧ ∃ c m, Containers pod' !! i = Some c
             ∧ m ∈ c_VolumeMounts c ∧ vm_Name m = VolumeName (m_Name model)).
  { intros i x Hi. destruct (existsb _ _) eqn:Hex; intros [= <-]; (split; [done|]).
    - apply existsb_elem_of in Hex as (m & Hm & Hn).
      exists x, m. split; [done|]. split; [done|]. by apply bool_decide_eq_true in Hn.
    - eexists _, _. cbn.
      rewrite list_lookup_insert_eq by (by eapply lookup_lt_Some).
      split; [reflexivity|]. cbn.
      split; [apply elem_of_app; right; apply list_elem_of_here | reflexivity]. }
  case_bool_decide as Hsel.
  - destruct (find_container _ _) as [i|] eqn:Hfind; [|done]. cbn.
    destruct (find_container_lookup _ _ _ Hfind) as (x & Hi & _). rewrite Hi.
    by apply Hstep.
  - destruct (Containers pod !! 0%nat) as [x|] eqn:Hi; [by apply Hstep|].
    apply lookup_ge_None in Hi. lia.
Qed.

Lemma injectEnvVars_volumes pod model opts pod' :
  injectEnvVars pod model opts = inr pod' → Volumes pod' = Volumes pod.
Proof.
  unfold injectEnvVars. case_bool_decide; [done|].
  match goal with |- context [Containers pod !! ?i] =>
    destruct (Containers pod !! i) end; by intros [= <-].
Qed.

Lemma wired_extends pod pod' opts n :
  extends_pod pod pod' → wired pod opts n → wired pod' opts n.
Proof.
  intros He ((v & Hv & Hvn) & (x & m & Hx & Hm & Hmn)).
  pose proof (target_index_extends _ _ opts He) as Hidx.
  destruct He as (_ & _ & [vs Hvs] & Hc). split.
  - exists v. split; [|done]. rewrite Hvs. apply elem_of_app. by left.
  - destruct (Forall2_lookup_l _ _ _ _ _ Hc Hx) as (y & Hy & _ & [ms Hms] & _).
    exists y, m. rewrite Hidx. split; [done|]. split; [|done].
    rewrite Hms. apply elem_of_app. by left.
Qed.

(** One round: the model is wired afterwards, and its volume was there
    before or is the one appended. *)
Lemma inject_one_wired c ns opts n pod pod' :
  inject_one c ns opts n pod = inr pod' →
  wired pod' opts n
  ∧ ((Volumes pod' = Volumes pod
      ∧ ∃ v, v ∈ Volumes pod ∧ v_Name v = VolumeName n)
     ∨ (Volumes pod' = (Volumes pod ++ [model_volume n])%list
        ∧ ∀ v, v ∈ Volumes pod → v_Name v ≠ VolumeName n)).
Proof.
  unfold inject_one. destruct (GetModel c ns n) as [err|model] eqn:Hget; [done|].
  apply GetModel_inv in Hget as (o & _ & ->).
  case_bool_decide; [done|].
  set (model := model_of ns n o).
  pose proof (injectVolume_volumes pod model) as Hvol.
  destruct (injectVolume_same pod model) as [Hcs _].
  destruct (injectVolumeMount _ model opts) as [err|pod1] eqn:Hmount; [done|].
  pose proof (injectVolumeMount_mounted _ _ _ _ Hmount) as (Hv1 & x & m & Hx & Hm & Hmn).
  rewrite Hcs in Hx.
  pose proof (injectVolumeMount_extends _ _ _ _ Hmount) as He1.
  pose proof (target_index_extends _ _ opts He1) as Hidx. rewrite Hcs in Hidx.
  assert (Hw1 : wired pod1 opts n).
  { split.
    - rewrite Hv1. destruct Hvol as [[-> Hv] | [-> _]]; [done|].
      exists (model_volume n). split; [|done]. apply elem_of_app. right.
      apply list_elem_of_here.
    - exists x, m. by rewrite Hidx. }
  assert (Hvols : (Volumes pod1 = Volumes pod
                   ∧ ∃ v, v ∈ Volumes pod ∧ v_Name v = VolumeName n)
                  ∨ (Volumes pod1 = (Volumes pod ++ [model_volume n])%list
                     ∧ ∀ v, v ∈ Volumes pod → v_Name v ≠ VolumeName n)).
  { rewrite Hv1. exact Hvol. }
  destruct (InjectEnv opts).
  - destruct (injectEnvVars pod1 model opts) as [err|pod2] eqn:Henv; [done|].
    intros [= <-]. split.
    + eapply wired_extends; [|exact Hw1]. by eapply injectEnvVars_extends.
    + by rewrite (injectEnvVars_volumes _ _ _ _ Henv).
  - by intros [= <-].
Qed.







(** *** Injecting the same model again *)

Lemma target_index_lt (cs : list Container) opts :
  cs ≠ [] → (target_index cs opts < length cs)%nat.
Proof.
  intros Hne. unfold target_index.
  assert (0 < length cs)%nat by (destruct cs; [done | cbn; lia]).
  case_bool_decide; [|done].
  destruct (find_container cs (ContainerName opts)) as [i|] eqn:Hfind; [|done].
  destruct (find_container_lookup _ _ _ Hfind) as (x & Hx & _).
  by eapply lookup_lt_Some.
Qed.

Lemma with_containers_same pod : with_containers pod (Containers pod) = pod.
Proof. by destruct pod. Qed.

Lemma injectVolume_noop pod model :
  (∃ v, v ∈ Volumes pod ∧ v_Name v = VolumeName (m_Name model)) →
  injectVolume pod model = pod.
Proof.
  intros (v & Hv & Hn). unfold injectVolume.
  assert (Hex : existsb (λ v, bool_decide (v_Name v = VolumeName (m_Name model)))
                  (Volumes pod) = true).
  { apply existsb_elem_of. exists v. split; [done|]. by apply bool_decide_eq_true. }
  by rewrite Hex.
Qed.

Lemma injectVolumeMount_noop pod model opts :
  ¬ bad_target (Containers pod) opts →
  (∃ c m, Containers pod !! target_index (Containers pod) opts = Some c
          ∧ m ∈ c_VolumeMounts c ∧ vm_Name m = VolumeName (m_Name model)) →
  injectVolumeMount pod model opts = inr pod.
Proof.
  intros Hgood (x & m & Hx & Hm & Hn). unfold injectVolumeMount.
  rewrite bool_decide_eq_false_2.
  2:{ intros Hlen. apply Hgood. left. by apply nil_length_inv. }
  assert (Hex : existsb (λ m, bool_decide (vm_Name m = VolumeName (m_Name model)))
                  (c_VolumeMounts x) = true).
  { apply existsb_elem_of. exists m. split; [done|]. by apply bool_decide_eq_true. }
  unfold target_index in Hx. case_bool_decide as Hsel.
  - destruct (find_container _ _) as [i|] eqn:Hfind.
    + cbn in Hx. by rewrite Hx, Hex.
    + destruct Hgood. by right.
  - by rewrite Hx, Hex.
Qed.

Lemma fresh_env_nil existing envVars :
  (∀ e, e ∈ envVars → env_Name e ∈ env_Name <$> existing) →
  fresh_env existing envVars = [].
Proof.
  unfold fresh_env. induction envVars as [|e envVars IH]; intros Hall; [done|].
  rewrite filter_cons. case_decide as Hnew.
  - destruct Hnew. apply Hall, list_elem_of_here.
  - apply IH. intros e' He'. by apply Hall, list_elem_of_further.
Qed.

Lemma injectEnvVars_noop pod model opts c :
  Containers pod !! target_index (Containers pod) opts = Some c →
  (∀ e, e ∈ model_env model opts → env_Name e ∈ env_Name <$> c_Env c) →
  injectEnvVars pod model opts = inr pod.
Proof.
  intros Hc Hall. unfold injectEnvVars.
  rewrite bool_decide_eq_false_2.
  2:{ intros Hlen. apply nil_length_inv in Hlen. by rewrite Hlen in Hc. }
  fold (target_index (Containers pod) opts). rewrite Hc.
  unfold add_env. rewrite (fresh_env_nil _ _ Hall), app_nil_r.
  replace {| c_Name := c_Name c; c_VolumeMounts := c_VolumeMounts c;
             c_Env := c_Env c |} with c by (by destruct c).
  rewrite list_insert_id by done. by rewrite with_containers_same.
Qed.

(** After [injectEnvVars] the selected container has every variable name. *)
Lemma injectEnvVars_covers pod model opts pod' :
  injectEnvVars pod model opts = inr pod' →
  ∃ c, Containers pod' !! target_index (Containers pod) opts = Some c
       ∧ ∀ e, e ∈ model_env model opts → env_Name e ∈ env_Name <$> c_Env c.
Proof.
  unfold injectEnvVars. case_bool_decide as Hlen; [done|].
  fold (target_index (Containers pod) opts).
  assert (Hne : Containers pod ≠ []) by (intros Heq; by rewrite Heq in Hlen).
  destruct (lookup_lt_is_Some_2 _ _ (target_index_lt _ opts Hne)) as [x Hx].
  rewrite Hx. intros [= <-]. exists (add_env (model_env model opts) x).
  split.
  { cbn [Containers with_containers].
    apply list_lookup_insert_eq. by eapply lookup_lt_Some. }
  intros e He. unfold add_env. cbn [c_Env]. rewrite fmap_app. apply elem_of_app.
  destruct (decide (env_Name e ∈ env_Name <$> c_Env x)) as [Hin|Hnew]; [by left|].
  right. apply list_elem_of_fmap. exists e. split; [done|].
  unfold fresh_env. by apply list_elem_of_filter.
Qed.

(** X15: injecting a model twice is injecting it once.  A second round of
    the loop for a name that has just been injected finds the volume, the
    mount and the variables in place and leaves the workload as it is; a
    name listed twice in the annotation is injected once. *)
Theorem inject_one_idempotent c ns opts n pod pod' :
  inject_one c ns opts n pod = inr pod' →
  inject_one c ns opts n pod' = inr pod'.
Proof.
  intros Hone.
  pose proof (inject_one_wired _ _ _ _ _ _ Hone) as [[Hvol Hmount] _].
  pose proof (inject_one_extends _ _ _ _ _ _ Hone) as Hext.
  pose proof (inject_one_cases c ns opts n pod) as Hcases. rewrite Hone in Hcases.
  destruct Hcases as (_ & Hgood & Hnames & _).
  assert (Hgood' : ¬ bad_target (Containers pod') opts).
  { intros Hbad. apply Hgood. by apply (bad_target_names (Containers pod')). }
  revert Hone. unfold inject_one.
  destruct (GetModel c ns n) as [err|model] eqn:Hget; [done|].
  apply GetModel_inv in Hget as (o & _ & ->). set (model := model_of ns n o).
  case_bool_decide; [done|].
  destruct (injectVolumeMount (injectVolume pod model) model opts)
    as [err|pod1] eqn:Hm1; [done|].
  rewrite (injectVolume_noop pod' model Hvol).
  rewrite (injectVolumeMount_noop pod' model opts Hgood' Hmount).
  destruct (InjectEnv opts); [|done].
  destruct (injectEnvVars pod1 model opts) as [err|pod2] eqn:He1; [done|].
  intros [= <-].
  destruct (injectEnvVars_covers _ _ _ _ He1) as (x & Hx & Hall).
  pose proof (injectEnvVars_extends _ _ _ _ He1) as Hext1.
  rewrite <- (target_index_extends _ _ opts Hext1) in Hx.
  by rewrite (injectEnvVars_noop pod2 model opts x Hx Hall).
Qed.

Lemma inject_one_idempotent_witness :
  ∃ pod',
    inject_one Samples.ready_no_claim "default" (parseOptions ∅) "m1"
      (Samples.test_pod [Samples.main]) = inr pod'
    ∧ inject_one Samples.ready_no_claim "default" (parseOptions ∅) "m1" pod' = inr pod'.
Proof.
  destruct (inject_one Samples.ready_no_claim "default" (parseOptions ∅) "m1"
              (Samples.test_pod [Samples.main])) as [resp|pod'] eqn:Hone;
    [by vm_compute in Hone|].
  exists pod'. split; [reflexivity|].
  exact (inject_one_idempotent _ _ _ _ _ _ Hone).
Defined.

(** *** Environment injection switched off *)

Lemma envs_insert (cs : list Container) (i : nat) x y :
  cs !! i = Some x → c_Env y = c_Env x →
  c_Env <$> <[i := y]> cs = c_Env <$> cs.
Proof.
  intros Hi Hn. rewrite list_fmap_insert. apply list_insert_id.
  by rewrite list_lookup_fmap, Hi, Hn.
Qed.

Lemma injectVolumeMount_envs pod model opts pod' :
  injectVolumeMount pod model opts = inr pod' →
  c_Env <$> Containers pod' = c_Env <$> Containers pod.
Proof.
  unfold injectVolumeMount. case_bool_decide; [done|].
  match goal with |- context [match ?t with _ => _ end] => destruct t as [i|] end;
    [|done].
  destruct (Containers pod !! i) as [x|] eqn:Hi; [|by intros [= <-]].
  destruct (existsb _ _); intros [= <-]; [done|].
  cbn. by apply (envs_insert _ _ x).
Qed.

Lemma inject_all_envs c ns opts fields pod pod' :
  InjectEnv opts = false →
  inject_all c ns opts fields pod = inr pod' →
  c_Env <$> Containers pod' = c_Env <$> Containers pod.
Proof.
  intros Hoff. revert pod.
  induction fields as [|field fields IH]; intros pod; cbn [inject_all].
  { by intros [= <-]. }
  case_bool_decide; [apply IH|].
  destruct (inject_one c ns opts (TrimSpace field) pod) as [resp|pod1] eqn:Hone; [done|].
  intros Hall. rewrite (IH pod1 Hall). revert Hone. unfold inject_one.
  destruct (GetModel _ _ _) as [err|model]; [done|]. case_bool_decide; [done|].
  destruct (injectVolume_same pod model) as [Hcs _].
  destruct (injectVolumeMount _ model opts) as [err|pod2] eqn:Hmount; [done|].
  rewrite Hoff. intros [= <-].
  rewrite (injectVolumeMount_envs _ _ _ _ Hmount). by rewrite Hcs.
Qed.

(** X16: the environment switch.  With the inject-env annotation set to
    the text false, the patched workload has in every container exactly the
    variables it came with; volume and mount are injected all the same. *)
Theorem env_injection_switched_off c req pod pod' :
  req_Object req = inr pod →
  Annotations pod !! AnnotationInjectEnv = Some "false" →
  Patched (Handle c req) = Some pod' →
  c_Env <$> Containers pod' = c_Env <$> Containers pod.
Proof.
  intros Hobj Hoff. unfold Handle. rewrite Hobj.
  case_bool_decide; [done|].
  destruct (Annotations pod !! AnnotationInject) as [a|]; [|done].
  case_bool_decide; [done|].
  destruct (inject_all _ _ _ _ _) as [resp|pod1] eqn:Hall.
  { intros Hp. by rewrite (inject_all_denied _ _ _ _ _ _ Hall) in Hp. }
  cbn. intros [= <-]. cbn.
  assert (Hopt : InjectEnv (parseOptions (Annotations pod)) = false)
    by (unfold parseOptions; cbn; by rewrite Hoff).
  exact (inject_all_envs _ _ _ _ _ _ Hopt Hall).
Qed.

Lemma env_injection_switched_off_witness :
  ∃ pod',
    Patched (Handle Samples.ready_no_claim (Samples.request_for Scenarios.pod_without_env))
    = Some pod'
    ∧ c_Env <$> Containers pod' = [ [ {| env_Name := "HOME"; env_Value := "/root" |} ] ]
    ∧ model_volume "m1" ∈ Volumes pod'.
Proof.
  destruct (Patched (Handle Samples.ready_no_claim
              (Samples.request_for Scenarios.pod_without_env)))
    as [pod'|] eqn:Hpatched; [|by vm_compute in Hpatched].
  exists pod'. split; [reflexivity|]. split.
  - apply (env_injection_switched_off Samples.ready_no_claim
             (Samples.request_for Scenarios.pod_without_env)
             Scenarios.pod_without_env pod' eq_refl eq_refl Hpatched).
  - revert Hpatched. vm_compute. intros [= <-]. constructor.
Defined.

Lemma only_target_container_changes_witness :
  ∃ pod',
    Patched (Handle Samples.ready_no_claim
               (Samples.request_for Scenarios.pod_selecting_sidecar)) = Some pod'
    ∧ Containers pod' !! 0%nat = Some Samples.main.
Proof.
  destruct (Patched (Handle Samples.ready_no_claim
              (Samples.request_for Scenarios.pod_selecting_sidecar)))
    as [pod'|] eqn:Hpatched; [|by vm_compute in Hpatched].
  exists pod'. split; [reflexivity|].
  apply (only_target_container_changes Samples.ready_no_claim
           (Samples.request_for Scenarios.pod_selecting_sidecar)
           Scenarios.pod_selecting_sidecar pod' 0%nat eq_refl Hpatched).
  by vm_compute.
Defined.

End InjectionFacts.



(** ** Names, builders and scripts *)
Section NamesAndScripts.
Import API K8s Naming GoStrings Resources Webhook Injection Scripts Names.

(** X17: derived names tell Models apart.  Two Models have the same claim
    name, Job name, volume name or default mount path only if they have the
    same name; and the volume name of a Model is its claim name. *)
Theorem derived_names_injective n n' :
  (PVCName n = PVCName n' ↔ n = n')
  ∧ (JobName n = JobName n' ↔ n = n')
  ∧ (VolumeName n = VolumeName n' ↔ n = n')
  ∧ (DefaultMountPath n = DefaultMountPath n' ↔ n = n')
  ∧ VolumeName n = PVCName n.
Proof.
  unfold PVCName, JobName, VolumeName, DefaultMountPath,
    PVCPrefix, JobPrefix, VolumePrefix. cbn.
  repeat split; try (by intros [=]); by intros ->.
Qed.

Lemma name_byte_back c :
  dns_byte c = true → name_byte (dash_to_underscore (upper_byte c)) = c.
Proof.
  destruct c as [[] [] [] [] [] [] [] []]; vm_compute; intros H;
    first [reflexivity | discriminate H].
Qed.

Lemma upper_byte_twice c : upper_byte (upper_byte c) = upper_byte c.
Proof. destruct c as [[] [] [] [] [] [] [] []]; reflexivity. Qed.

Lemma map_bytes_back n :
  dns_name n →
  map_bytes name_byte (map_bytes dash_to_underscore (map_bytes upper_byte n)) = n.
Proof.
  unfold dns_name. induction n as [|c n IH]; [done|]. cbn.
  intros [Hc Hn]%andb_true_iff. by rewrite name_byte_back, IH.
Qed.

(** X18: the environment prefix on object names.  On names made of
    lower-case letters, digits, dashes and dots, distinct names have
    distinct prefixes; in general the prefix does not see the case of
    letters: a name and its upper-cased form share their prefix. *)
Theorem env_prefix_injective_on_names n n' :
  (dns_name n → dns_name n' → EnvVarPrefix n = EnvVarPrefix n' → n = n')
  ∧ EnvVarPrefix (ToUpper n) = EnvVarPrefix n.
Proof.
  assert (Hcontract : ∀ m, EnvVarPrefix m =
            "MODEL_" +:+ map_bytes dash_to_underscore (map_bytes upper_byte m)).
  { intros m. unfold EnvVarPrefix, ToUpper, ReplaceAll. by rewrite replace_dash. }
  split.
  - intros Hn Hn'. rewrite !Hcontract. cbn. intros [= Heq].
    rewrite <- (map_bytes_back n Hn), <- (map_bytes_back n' Hn').
    exact (f_equal (map_bytes name_byte) Heq).
  - rewrite !Hcontract. f_equal. f_equal. unfold ToUpper.
    induction n as [|c n IH]; [done|]. cbn. by rewrite upper_byte_twice, IH.
Qed.

Lemma env_prefix_injective_on_names_witness :
  dns_name "llama-3.1"
  ∧ EnvVarPrefix "llama-3.1" = "MODEL_LLAMA_3.1"
  ∧ "llama-3.1" = "llama-3.1".
Proof.
  split; [reflexivity|]. split; [reflexivity|].
  destruct (env_prefix_injective_on_names "llama-3.1" "llama-3.1") as [Hinj _].
  apply Hinj; reflexivity.
Defined.

(** X19: claim, Job and injected volume agree.  For a Model whose claim
    and Job can be built, the Job mounts the claim that [BuildPVC] builds, in
    the namespace of the Model, and the volume the mutator injects for the
    Model binds that same claim, read-only; the claim has at least one
    access mode. *)
Theorem builders_agree_on_claim model pvc job :
  BuildPVC model = Some pvc →
  BuildDownloadJob model = inr job →
  job_ClaimName job = pvc_Name pvc
  ∧ job_Namespace job = pvc_Namespace pvc
  ∧ pvc_Namespace pvc = m_Namespace model
  ∧ v_PersistentVolumeClaim (model_volume (m_Name model))
    = Some {| ClaimName := pvc_Name pvc; pvs_ReadOnly := true |}
  ∧ pvc_AccessModes pvc ≠ [].
Proof.
  unfold BuildPVC, BuildDownloadJob.
  destruct (ParseQuantity _) as [q|]; [|done]. intros [= <-].
  destruct (download_container model) as [err|container]; [done|]. intros [= <-].
  cbn. repeat split. case_bool_decide as Hlen; [done|].
  intros Hnil. by rewrite Hnil in Hlen.
Qed.

Lemma builders_agree_on_claim_witness :
  ∃ pvc job,
    BuildPVC (model_of "default" "m1" Samples.ready_object) = Some pvc
    ∧ BuildDownloadJob (model_of "default" "m1" Samples.ready_object) = inr job
    ∧ job_ClaimName job = pvc_Name pvc
    ∧ pvc_AccessModes pvc = ["ReadWriteOnce"].
Proof.
  eexists _, _. split; [reflexivity|]. split; [reflexivity|].
  destruct (builders_agree_on_claim (model_of "default" "m1" Samples.ready_object)
              _ _ eq_refl eq_refl) as (Hclaim & _).
  split; [exact Hclaim | reflexivity].
Defined.

(** *** Scripts *)

Lemma prefix_here x r : String.prefix x (x +:+ r) = true.
Proof.
  induction x as [|c x IH]; [by destruct r|].
  change (String c x +:+ r) with (String c (x +:+ r)). cbn.
  by destruct (ascii_dec c c).
Qed.

Lemma Contains_here x r : Contains (x +:+ r) x = true.
Proof.
  pose proof (prefix_here x r) as Hp.
  destruct (x +:+ r); cbn [Contains]; by rewrite Hp.
Qed.

Lemma Contains_later a s x : Contains s x = true → Contains (a +:+ s) x = true.
Proof.
  intros Hs. induction a as [|c a IH]; [done|].
  change (String c a +:+ s) with (String c (a +:+ s)). cbn.
  rewrite IH. apply orb_true_r.
Qed.

Lemma append_assoc (a b c : string) : a +:+ (b +:+ c) = (a +:+ b) +:+ c.
Proof.
  induction a as [|x a IH]; [done|].
  change (String x a +:+ (b +:+ c)) with (String x (a +:+ (b +:+ c))).
  by rewrite IH.
Qed.

Ltac find_in_script :=
  repeat first [ apply Contains_here | apply Contains_later ].

(** X20: the S3 and URL scripts carry the source verbatim.  Whatever bytes
    the fields hold, the script of an S3 source contains the address
    s3://bucket/key made of its bucket and key, and its endpoint and region
    behind their options when they are set; the script of a URL source
    contains its URL between double quotes. *)
Theorem scripts_carry_the_source s3 url :
  Contains (s3Script s3) ("s3://" +:+ s3_Bucket s3 +:+ "/" +:+ s3_Key s3) = true
  ∧ (s3_Endpoint s3 ≠ "" →
     Contains (s3Script s3) ("--endpoint-url " +:+ s3_Endpoint s3) = true)
  ∧ (s3_Region s3 ≠ "" →
     Contains (s3Script s3) ("--region " +:+ s3_Region s3) = true)
  ∧ Contains (urlScript url) (dq +:+ url_URL url +:+ dq) = true.
Proof.
  unfold s3Script, urlScript. cbn zeta. repeat split.
  - do 4 apply Contains_later.
    change (" s3://" +:+ ?r) with (" " +:+ ("s3://" +:+ r)).
    apply Contains_later.
    rewrite (append_assoc "/"), (append_assoc (s3_Bucket s3)),
      (append_assoc "s3://").
    apply Contains_here.
  - intros Hne. rewrite (bool_decide_eq_true_2 _ Hne).
    apply Contains_later, Contains_here.
  - intros Hne. rewrite (bool_decide_eq_true_2 _ Hne).
    do 3 apply Contains_later. apply Contains_here.
  - apply Contains_later.
    rewrite (append_assoc (url_URL url)), (append_assoc dq).
    apply Contains_here.
Qed.

Lemma scripts_carry_the_source_witness :
  Contains
    (s3Script {| s3_Bucket := "my-bucket"; s3_Key := "models/test";
                 s3_Endpoint := "http://minio:9000"; s3_Region := "" |})
    "--endpoint-url http://minio:9000" = true.
Proof.
  destruct (scripts_carry_the_source
              {| s3_Bucket := "my-bucket"; s3_Key := "models/test";
                 s3_Endpoint := "http://minio:9000"; s3_Region := "" |}
              {| url_URL := "https://example.com/model.bin" |})
    as (_ & Hendpoint & _).
  apply Hendpoint. discriminate.
Defined.

End NamesAndScripts.
